(** * Dictionary compression and chunk-pruning table access of Hyrise

    A shallow embedding of
    - [src/lib/storage/dictionary_compression.cpp]: the column compressor
      ([ColumnCompressor<T>::compress_column], [get_value_id],
      [_create_fitted_attribute_vector]) and the chunk and table entry points
      ([compress_chunk], [compress_chunks], [compress_table]);
    - [src/lib/operators/get_table.cpp]: the [GetTable] operator;
    - [src/lib/constant_mappings.cpp]: the tables between enumerators and
      their names.

    Vectors are lists, [shared_ptr]s to chunks and tables are locations of a
    store, exceptions are the [Err] results of a small error monad, and the
    element type [T] of a column is any type with the two operators the
    compressor uses on it ([operator<] and [operator==]). *)

From Stdlib Require Import ZArith NArith SpecFloat.
From stdpp Require Import gmap strings list sorting.
From Equations Require Import Equations.

Set Default Proof Using "Type*".
Local Open Scope N_scope.

(** ** Errors and results *)

(** What a call can end with instead of a value.  [AssertionFailure] is what
    [Assert] (and, in a debug build, [DebugAssert]) raises with its message;
    [UndefinedBehaviour] marks an out-of-range [operator[]] on a
    [std::vector]. *)
Inductive Error : Type :=
| AssertionFailure (msg : string)
| DomainError
| NotFoundError
| SchemaMismatchError
| UndefinedBehaviour.

Inductive Result (A : Type) : Type :=
| Ok (a : A)
| Err (e : Error).
Arguments Ok {A} a.
Arguments Err {A} e.

Definition bind {A B : Type} (r : Result A) (k : A → Result B) : Result B :=
  match r with
  | Ok a => k a
  | Err e => Err e
  end.

Notation "'do' x <- r ; k" := (bind r (fun x => k))
  (at level 10, x name, r at level 100, k at level 200).

(** Modelled from the spec: the macro [Assert(expr, msg)] of
    [utils/assert.hpp]: a failed assertion ends the call with an error that
    is surfaced to the caller. *)
Definition Assert (expr : bool) (msg : string) : Result unit :=
  if expr then Ok tt else Err (AssertionFailure msg).

(** Modelled from the spec: the macro [DebugAssert(expr, msg)] of
    [utils/assert.hpp]: [Assert] in a debug build, nothing in a release
    build.  The kind of build is the parameter [IS_DEBUG]. *)
Definition DebugAssert (IS_DEBUG : bool) (expr : bool) (msg : string) : Result unit :=
  if IS_DEBUG then Assert expr msg else Ok tt.

(** ** Identifiers *)

(** [ValueID], [ChunkID] and [ColumnID] are strong typedefs of [uint32_t]. *)
Definition ValueID : Type := N.
Definition ChunkID : Type := N.
Definition ColumnID : Type := N.

(** [std::numeric_limits<uint8_t>::max()] and
    [std::numeric_limits<uint16_t>::max()]. *)
Definition UINT8_MAX : N := 255.
Definition UINT16_MAX : N := 65535.

(** The number of values of an [unsigned int] and of a [uint32_t]. *)
Definition UINT32_MODULUS : N := 2 ^ 32.

(** [static_cast<uint32_t>] of a nonnegative number. *)
Definition to_uint32 (n : N) : N := n mod UINT32_MODULUS.

(** Modelled from the spec: the constant [NULL_VALUE_ID] of [types.hpp]:
    "a reserved NULL_VALUE_ID equals zero". *)
Definition NULL_VALUE_ID : ValueID := 0.

(** ** Width-fitted attribute vector *)

(** Modelled from the spec: [FittedAttributeVector<uintW_t>] of
    [fitted_attribute_vector.hpp]: a fixed-length sequence of value ids held
    in [width] bytes each, all positions zero at construction; [set(i, v)]
    requires [i] below the capacity and [v] representable in [width] bytes
    and is a Domain error otherwise. *)
Record FittedAttributeVector : Type := mkFittedAttributeVector {
  width : N;
  attributes : list ValueID
}.

(** Modelled from the spec: the constructor [FittedAttributeVector<uintW_t>(size)],
    "all positions are zero-initialized". *)
Definition make_FittedAttributeVector (w : N) (size : nat) : FittedAttributeVector :=
  {| width := w; attributes := replicate size 0 |}.

(** Modelled from the spec: [size()] and [get(i)] of the attribute
    vector. *)
Definition av_size (av : FittedAttributeVector) : nat := length (attributes av).

Definition av_get (av : FittedAttributeVector) (i : nat) : option ValueID :=
  attributes av !! i.

(** Modelled from the spec: [set(i, v)] of the attribute vector, which
    "requires i < capacity and v representable in W bytes (else Domain
    error)". *)
Definition av_set (i : N) (value_id : ValueID) (av : FittedAttributeVector)
  : Result FittedAttributeVector :=
  if decide (i < N.of_nat (av_size av) ∧ value_id < 2 ^ (8 * width av)) then
    Ok {| width := width av; attributes := <[N.to_nat i := value_id]> (attributes av) |}
  else Err DomainError.

(** [ColumnCompressorBase::_create_fitted_attribute_vector]. *)
Definition _create_fitted_attribute_vector (unique_values_count : N) (size : nat)
  : FittedAttributeVector :=
  if decide (unique_values_count ≤ UINT8_MAX) then make_FittedAttributeVector 1 size
  else if decide (unique_values_count ≤ UINT16_MAX) then make_FittedAttributeVector 2 size
  else make_FittedAttributeVector 4 size.

(** ** Columns *)

(** What the compressor needs of an element type: [operator<] for
    [std::sort] and [std::lower_bound], [operator==] for [std::unique]. *)
Class Element (T : Type) : Type := {
  less : T → T → bool;
  equal : T → T → bool
}.

(** The element types whose [operator<] is a strict total order that
    [operator==] agrees with: the integers and the strings. *)
Class TotalOrder (T : Type) `{Element T} : Prop := {
  less_irrefl : ∀ a, less a a = false;
  less_trans : ∀ a b c, less a b = true → less b c = true → less a c = true;
  less_total : ∀ a b, less a b = false → less b a = false → a = b;
  equal_spec : ∀ a b, equal a b = true ↔ a = b
}.

(** A value that equals itself by [operator==]: every integer and every
    string, and every floating-point value but NaN. *)
Definition comparable {T : Type} `{Element T} (v : T) : Prop := equal v v = true.

(** What holds of [operator<] and [operator==] on every element type: the
    values that equal themselves are weakly ordered by [operator<], with
    [operator==] as the equivalence of the order ([+0.0] and [-0.0] are equal
    and yet two values), and a value that does not equal itself is below
    nothing and above nothing. *)
Class WeakOrder (T : Type) `{Element T} : Prop := {
  weak_irrefl : ∀ a, less a a = false;
  weak_trans : ∀ a b c, less a b = true → less b c = true → less a c = true;
  weak_total : ∀ a b, comparable a → comparable b →
    less a b = false → less b a = false → equal a b = true;
  weak_equal_l : ∀ a b c, equal a b = true → less a c = less b c;
  weak_equal_r : ∀ a b c, equal a b = true → less c a = less c b
}.

(** [ValueColumn<T>] as the compressor reads it: [values()] and, when
    [is_nullable()], the parallel mask [null_values()]. *)
Record ValueColumn (T : Type) : Type := mkValueColumn {
  values : list T;
  null_values : option (list bool)
}.
Arguments mkValueColumn {T} _ _.
Arguments values {T} _.
Arguments null_values {T} _.

(** [DictionaryColumn<T>(dictionary, attribute_vector)]. *)
Record DictionaryColumn (T : Type) : Type := mkDictionaryColumn {
  dictionary : list T;
  attribute_vector : FittedAttributeVector
}.
Arguments mkDictionaryColumn {T} _ _.
Arguments dictionary {T} _.
Arguments attribute_vector {T} _.

(** [ChunkColumnStatistics<T>(min, max)]. *)
Record ChunkColumnStatistics (T : Type) : Type := mkChunkColumnStatistics {
  stat_min : T;
  stat_max : T
}.
Arguments mkChunkColumnStatistics {T} _ _.
Arguments stat_min {T} _.
Arguments stat_max {T} _.

(** The value-column invariant: the null mask is as long as the values. *)
Definition wf_column {T : Type} (c : ValueColumn T) : Prop :=
  match null_values c with
  | Some nulls => length nulls = length (values c)
  | None => True
  end.

(** Row [i] of the column is null. *)
Definition row_is_null {T : Type} (c : ValueColumn T) (i : nat) : Prop :=
  match null_values c with
  | Some nulls => nulls !! i = Some true
  | None => False
  end.

(** The values of the rows that are not null, in row order. *)
Fixpoint keep_non_null {T : Type} (vs : list T) (nulls : list bool) : list T :=
  match vs, nulls with
  | v :: vs', b :: nulls' =>
      if b : bool then keep_non_null vs' nulls' else v :: keep_non_null vs' nulls'
  | _, _ => []
  end.

Definition non_null_values {T : Type} (c : ValueColumn T) : list T :=
  match null_values c with
  | Some nulls => keep_non_null (values c) nulls
  | None => values c
  end.

(** ** The column compressor, [ColumnCompressor<T>] *)

Section ColumnCompressor.
Context {T : Type} `{Element T}.

(** The order [std::sort] sorts by: [b] is not less than [a]. *)
Definition not_greater (a b : T) : Prop := less b a = false.

#[local] Instance not_greater_dec a b : Decision (not_greater a b).
Proof. unfold not_greater. apply _. Defined.

(** [std::sort(first, last)] with [operator<].  The standard fixes what the
    call leaves, not the algorithm: a permutation of the range in which no
    element is less than an earlier one, as long as [operator<] is a strict
    weak ordering of the elements.  A merge sort stands for the call.  It is
    the call exactly where the ordering is total, on the integers and the
    strings ([sort_determined]).  Where two values are equal without being
    the same ([+0.0] and [-0.0]) the library may leave them in the other
    order: the dictionary is then the same up to [operator==] and the value
    ids are the same ([sort_determined_up_to_equal]).  Where the elements
    are not ordered (NaN among other values) the standard leaves the result
    open.  The theorems that cover such columns state what holds whichever
    permutation the call leaves. *)
Definition sort (v : list T) : list T := merge_sort not_greater v.

(** [std::unique(first, last)] followed by the [erase] of the tail: of each
    run of consecutive elements equal by [operator==] the first one is
    kept.  [kept] is the element last written. *)
Fixpoint unique_from (kept : T) (v : list T) : list T :=
  match v with
  | [] => [kept]
  | x :: v' => if equal kept x then unique_from kept v' else kept :: unique_from x v'
  end.

Definition unique (v : list T) : list T :=
  match v with
  | [] => []
  | x :: v' => unique_from x v'
  end.

(** [std::swap(v[i], v[j])]. *)
Definition swap (i j : nat) (v : list T) : list T :=
  match v !! i, v !! j with
  | Some a, Some b => <[j := a]> (<[i := b]> v)
  | _, _ => v
  end.

(** The loop that swaps the values of null rows to the back.  [dict_it] is
    the base position of the reverse iterator (it points at
    [dict_it - 1]), [null_it] is what remains of the null mask read from
    its back, [erase_from_here] is the position of [erase_from_here_it].
    The mask is as long as the values ([wf_column]), so both iterators end
    together; a shorter mask is read as not null. *)
Fixpoint swap_nulls_to_back (dict_it : nat) (null_it : list bool)
    (dictionary : list T) (erase_from_here : nat) : list T * nat :=
  match dict_it with
  | O => (dictionary, erase_from_here)
  | S dict_it' =>
      match null_it with
      | true :: null_it' =>
          swap_nulls_to_back dict_it' null_it'
            (swap dict_it' (erase_from_here - 1) dictionary) (erase_from_here - 1)
      | false :: null_it' =>
          swap_nulls_to_back dict_it' null_it' dictionary erase_from_here
      | [] => swap_nulls_to_back dict_it' [] dictionary erase_from_here
      end
  end.

(** Lines 53 to 67: remove the values of null rows from the dictionary. *)
Definition remove_null_values (nulls : list bool) (dictionary : list T) : list T :=
  let '(dictionary, erase_from_here) :=
    swap_nulls_to_back (length dictionary) (reverse nulls) dictionary (length dictionary) in
  take erase_from_here dictionary.

(** [std::lower_bound(first, first + len, value)] as the library writes
    it: a binary search for the first position whose element is not less
    than [value]. *)
Equations? lower_bound_loop (v : list T) (value : T) (first len : nat) : nat
  by wf len lt :=
  lower_bound_loop v value first O := first;
  lower_bound_loop v value first (S n) with v !! (first + Nat.div2 (S n))%nat => {
    | Some middle with less middle value => {
        | true := lower_bound_loop v value (first + Nat.div2 (S n) + 1)%nat
                    (S n - Nat.div2 (S n) - 1)%nat;
        | false := lower_bound_loop v value first (Nat.div2 (S n)) };
    | None := first }.
Proof.
  all: pose proof (Nat.lt_div2 (S n) ltac:(lia)) as Hhalf; simpl in Hhalf |- *; lia.
Qed.

Definition lower_bound (v : list T) (value : T) : nat :=
  lower_bound_loop v value 0 (length v).

(** [ColumnCompressor<T>::get_value_id]. *)
Definition get_value_id (dictionary : list T) (value : T) : ValueID :=
  to_uint32 (N.of_nat (lower_bound dictionary value)).

(** Lines 83 to 94: the loop over the rows of a nullable column.  [index]
    is an [unsigned int] and wraps around. *)
Fixpoint fill_nullable (dictionary : list T) (value_it : list T) (null_value_it : list bool)
    (index : N) (av : FittedAttributeVector) : Result FittedAttributeVector :=
  match value_it with
  | [] => Ok av
  | value :: value_it' =>
      match null_value_it with
      | true :: null_value_it' =>
          do av' <- av_set index NULL_VALUE_ID av;
          fill_nullable dictionary value_it' null_value_it' (to_uint32 (index + 1)) av'
      | false :: null_value_it' =>
          do av' <- av_set index (get_value_id dictionary value) av;
          fill_nullable dictionary value_it' null_value_it' (to_uint32 (index + 1)) av'
      | [] =>
          do av' <- av_set index (get_value_id dictionary value) av;
          fill_nullable dictionary value_it' [] (to_uint32 (index + 1)) av'
      end
  end.

(** Lines 96 to 101: the loop over the rows of a column that is not
    nullable. *)
Fixpoint fill_not_nullable (dictionary : list T) (value_it : list T)
    (index : N) (av : FittedAttributeVector) : Result FittedAttributeVector :=
  match value_it with
  | [] => Ok av
  | value :: value_it' =>
      do av' <- av_set index (get_value_id dictionary value) av;
      fill_not_nullable dictionary value_it' (to_uint32 (index + 1)) av'
  end.

(** Lines 49 to 71: the dictionary of a value column. *)
Definition build_dictionary (value_column : ValueColumn T) : list T :=
  let dictionary := values value_column in
  let dictionary :=
    match null_values value_column with
    | Some nulls => remove_null_values nulls dictionary
    | None => dictionary
    end in
  unique (sort dictionary).

(** Lines 104 to 108. *)
Definition make_stats (dictionary : list T) : option (ChunkColumnStatistics T) :=
  match dictionary with
  | [] => None
  | front :: _ => Some (mkChunkColumnStatistics front (List.last dictionary front))
  end.

(** [ColumnCompressor<T>::compress_column] once the cast to
    [ValueColumn<T>] has succeeded (lines 49 to 111).  [dictionary.size()
    + 1u] is computed in [size_t]; a vector holds fewer than [2^64 - 1]
    elements, so that sum does not wrap. *)
Definition compress_value_column (value_column : ValueColumn T)
  : Result (DictionaryColumn T * option (ChunkColumnStatistics T)) :=
  let dictionary := build_dictionary value_column in
  let attribute_vector :=
    _create_fitted_attribute_vector (N.of_nat (length dictionary) + 1)
      (length (values value_column)) in
  do attribute_vector <-
    match null_values value_column with
    | Some nulls => fill_nullable dictionary (values value_column) nulls 0 attribute_vector
    | None => fill_not_nullable dictionary (values value_column) 0 attribute_vector
    end;
  let stats := make_stats dictionary in
  Ok (mkDictionaryColumn dictionary attribute_vector, stats).

End ColumnCompressor.

#[export] Instance Z_Element : Element Z := {| less := Z.ltb; equal := Z.eqb |}.
#[export] Instance string_Element : Element string := {| less := String.ltb; equal := String.eqb |}.
#[export] Instance float_Element : Element spec_float := {| less := SFltb; equal := SFeqb |}.

#[export] Instance spec_float_eq_dec : EqDecision spec_float.
Proof. solve_decision. Defined.


(** ** Data types and type-erased columns *)

(** The closed set of element types a column can have. *)
Module DataType.
Inductive t : Type := Int | Long | Float | Double | String.
End DataType.
Abbreviation DataType := DataType.t.

#[export] Instance DataType_eq_dec : EqDecision DataType.
Proof. solve_decision. Defined.

(** The element type of a data type: [int32_t] and [int64_t] are integers,
    [float] and [double] are IEEE 754 values, [std::string] is a string. *)
Definition type_of (data_type : DataType) : Type :=
  match data_type with
  | DataType.Int | DataType.Long => Z
  | DataType.Float | DataType.Double => spec_float
  | DataType.String => string
  end.

#[export] Instance type_of_Element (data_type : DataType) : Element (type_of data_type) :=
  match data_type with
  | DataType.Int | DataType.Long => Z_Element
  | DataType.Float | DataType.Double => float_Element
  | DataType.String => string_Element
  end.

(** [BaseColumn]: a value column or a dictionary column of some element
    type. *)
Inductive BaseColumn : Type :=
| ValueColumnOf (data_type : DataType) (c : ValueColumn (type_of data_type))
| DictionaryColumnOf (data_type : DataType) (c : DictionaryColumn (type_of data_type)).

(** [BaseChunkColumnStatistics]. *)
Inductive BaseChunkColumnStatistics : Type :=
| StatisticsOf (data_type : DataType) (s : ChunkColumnStatistics (type_of data_type)).

(** [BaseColumn::size()]. *)
Definition column_size (column : BaseColumn) : nat :=
  match column with
  | ValueColumnOf _ c => length (values c)
  | DictionaryColumnOf _ c => av_size (attribute_vector c)
  end.

(** [std::dynamic_pointer_cast<const ValueColumn<T>>(column)], where [T] is
    the element type of [data_type]; [None] is the null pointer. *)
Definition as_ValueColumn (data_type : DataType) (column : BaseColumn)
  : option (ValueColumn (type_of data_type)) :=
  match column with
  | ValueColumnOf data_type' c =>
      match decide (data_type' = data_type) with
      | left e => Some (eq_rect data_type' (λ d, ValueColumn (type_of d)) c data_type e)
      | right _ => None
      end
  | DictionaryColumnOf _ _ => None
  end.

(** [ColumnCompressor<T>::compress_column] (lines 41 to 112), [T] being the
    element type of [data_type]. *)
Definition ColumnCompressor_compress_column (data_type : DataType) (column : BaseColumn)
  : Result (BaseColumn * option BaseChunkColumnStatistics) :=
  match as_ValueColumn data_type column with
  | None => Err (AssertionFailure "Column is either already compressed or type mismatches.")
  | Some value_column =>
      do r <- compress_value_column value_column;
      Ok (DictionaryColumnOf data_type r.1, StatisticsOf data_type <$> r.2)
  end.

(** [DictionaryCompression::compress_column]: [make_shared_by_data_type]
    picks the compressor of the element type of [data_type]. *)
Definition compress_column (data_type : DataType) (column : BaseColumn)
  : Result (BaseColumn * option BaseChunkColumnStatistics) :=
  ColumnCompressor_compress_column data_type column.

(** ** Chunks *)

(** [ChunkStatistics]: one entry per column, null where a column has no
    statistics. *)
Definition ChunkStatistics : Type := list (option BaseChunkColumnStatistics).

(** The MVCC vectors of a chunk; their content is opaque here. *)
Record MvccColumns : Type := mkMvccColumns {
  tids : list N;
  begin_cids : list N;
  end_cids : list N
}.

(** Modelled from the spec: [Chunk] of [chunk.hpp]: one column per table
    column, optional MVCC columns, and the statistics installed by the
    compression. *)
Record Chunk : Type := mkChunk {
  columns : list BaseColumn;
  mvcc_columns : option MvccColumns;
  statistics : option ChunkStatistics
}.

(** Modelled from the spec: [Chunk::column_count]. *)
Definition column_count (chunk : Chunk) : nat := length (columns chunk).

(** Modelled from the spec: [Chunk::size], the "current row count (= size of
    any contained column)"; the first column is asked. *)
Definition chunk_size (chunk : Chunk) : nat :=
  match columns chunk with
  | [] => 0%nat
  | column :: _ => column_size column
  end.

(** Modelled from the spec: [Chunk::get_mutable_column]; [None] is an
    access past the columns. *)
Definition get_mutable_column (chunk : Chunk) (column_id : nat) : option BaseColumn :=
  columns chunk !! column_id.

(** Modelled from the spec: [Chunk::replace_column]: "replacing a column in
    a chunk requires the replacement to have the same row count", a
    SchemaMismatch error otherwise. *)
Definition replace_column (column_id : nat) (column : BaseColumn) (chunk : Chunk)
  : Result Chunk :=
  if decide (column_size column = chunk_size chunk) then
    Ok {| columns := <[column_id := column]> (columns chunk);
          mvcc_columns := mvcc_columns chunk;
          statistics := statistics chunk |}
  else Err SchemaMismatchError.

(** Modelled from the spec: [Chunk::has_mvcc_columns]. *)
Definition has_mvcc_columns (chunk : Chunk) : bool :=
  match mvcc_columns chunk with
  | Some _ => true
  | None => false
  end.

(** Modelled from the spec: [Chunk::shrink_mvcc_columns]: the MVCC vectors
    "are shrunk to their actual length"; the capacity changes, the content
    does not. *)
Definition shrink_mvcc_columns (chunk : Chunk) : Chunk := chunk.

(** Modelled from the spec: [Chunk::set_statistics]: the statistics are
    installed "as one value". *)
Definition set_statistics (stats : ChunkStatistics) (chunk : Chunk) : Chunk :=
  {| columns := columns chunk;
     mvcc_columns := mvcc_columns chunk;
     statistics := Some stats |}.

(** The loop of [compress_chunk] (lines 133 to 138) over the column ids that
    remain.  The chunk is mutated in place: the second component is the
    chunk as the loop leaves it, also when an exception ends it. *)
Fixpoint compress_columns (column_types : list DataType) (column_ids : list nat)
    (column_stats : ChunkStatistics) (chunk : Chunk) : Result ChunkStatistics * Chunk :=
  match column_ids with
  | [] => (Ok column_stats, chunk)
  | column_id :: column_ids' =>
      match get_mutable_column chunk column_id, column_types !! column_id with
      | Some value_column, Some data_type =>
          match compress_column data_type value_column with
          | Ok (dict_column, stats) =>
              match replace_column column_id dict_column chunk with
              | Ok chunk' =>
                  compress_columns column_types column_ids' (column_stats ++ [stats]) chunk'
              | Err e => (Err e, chunk)
              end
          | Err e => (Err e, chunk)
          end
      | _, _ => (Err UndefinedBehaviour, chunk)
      end
  end.

(** [DictionaryCompression::compress_chunk] on the chunk the pointer refers
    to; the second component is that chunk after the call. *)
Definition compress_chunk (IS_DEBUG : bool) (column_types : list DataType) (chunk : Chunk)
  : Result ChunkStatistics * Chunk :=
  match DebugAssert IS_DEBUG (bool_decide (length column_types = column_count chunk))
          "Number of column types does not match the chunk’s column count." with
  | Err e => (Err e, chunk)
  | Ok _ =>
      match compress_columns column_types (seq 0 (column_count chunk)) [] chunk with
      | (Err e, chunk) => (Err e, chunk)
      | (Ok column_stats, chunk) =>
          let chunk := if has_mvcc_columns chunk then shrink_mvcc_columns chunk else chunk in
          let stats := column_stats in
          (Ok stats, set_statistics stats chunk)
      end
  end.

(** ** Tables and the store *)

(** [shared_ptr<Chunk>] and [shared_ptr<Table>] are locations of the
    store. *)
Definition ChunkPtr : Type := positive.
Definition TablePtr : Type := positive.

Record ColumnDefinition : Type := mkColumnDefinition {
  column_name : string;
  column_type : DataType;
  column_nullable : bool
}.

(** Modelled from the spec: [Table] of [table.hpp]: a schema, the
    [max_chunk_size] policy and an ordered sequence of shared chunks. *)
Record Table : Type := mkTable {
  schema : list ColumnDefinition;
  max_chunk_size : N;
  chunks : list ChunkPtr
}.

(** Modelled from the spec: [Table::column_types], [Table::chunk_count] and
    [Table::get_chunk]; [None] is an access past the chunks. *)
Definition column_types (table : Table) : list DataType := column_type <$> schema table.
Definition chunk_count (table : Table) : nat := length (chunks table).
Definition get_chunk (table : Table) (chunk_id : nat) : option ChunkPtr :=
  chunks table !! chunk_id.

(** Modelled from the spec: [Table::create_with_layout_from]: the
    layout-cloning constructor "yields an empty table sharing the
    schema". *)
Definition create_with_layout_from (in_table : Table) (max_chunk_size : N) : Table :=
  {| schema := schema in_table; max_chunk_size := max_chunk_size; chunks := [] |}.

(** Modelled from the spec: [Table::emplace_chunk]: "append the same chunk
    object (shared reference) to the new table". *)
Definition emplace_chunk (chunk : ChunkPtr) (table : Table) : Table :=
  {| schema := schema table;
     max_chunk_size := max_chunk_size table;
     chunks := chunks table ++ [chunk] |}.

(** The objects that pointers refer to, and the registry of the
    [StorageManager]. *)
Record Store : Type := mkStore {
  chunk_store : gmap ChunkPtr Chunk;
  table_store : gmap TablePtr Table;
  storage_manager : gmap string TablePtr
}.

(** [compress_chunk] through a pointer: the chunk it refers to is updated in
    the store. *)
Definition compress_chunk_at (IS_DEBUG : bool) (column_types : list DataType)
    (chunk : ChunkPtr) (store : gmap ChunkPtr Chunk)
  : Result ChunkStatistics * gmap ChunkPtr Chunk :=
  match store !! chunk with
  | None => (Err UndefinedBehaviour, store)
  | Some c =>
      let '(r, c') := compress_chunk IS_DEBUG column_types c in
      (r, <[chunk := c']> store)
  end.

(** The loop of [compress_table] (lines 164 to 167) over the chunk ids that
    remain. *)
Fixpoint compress_table_loop (IS_DEBUG : bool) (table : Table) (chunk_ids : list nat)
    (chunk_stats : list ChunkStatistics) (store : gmap ChunkPtr Chunk)
  : Result (list ChunkStatistics) * gmap ChunkPtr Chunk :=
  match chunk_ids with
  | [] => (Ok chunk_stats, store)
  | chunk_id :: chunk_ids' =>
      match get_chunk table chunk_id with
      | None => (Err UndefinedBehaviour, store)
      | Some chunk =>
          match compress_chunk_at IS_DEBUG (column_types table) chunk store with
          | (Err e, store') => (Err e, store')
          | (Ok stats, store') =>
              compress_table_loop IS_DEBUG table chunk_ids' (chunk_stats ++ [stats]) store'
          end
      end
  end.

(** [DictionaryCompression::compress_table]. *)
Definition compress_table (IS_DEBUG : bool) (table : Table) (store : gmap ChunkPtr Chunk)
  : Result (list ChunkStatistics) * gmap ChunkPtr Chunk :=
  compress_table_loop IS_DEBUG table (seq 0 (chunk_count table)) [] store.

(** [DictionaryCompression::compress_chunks]. *)
Fixpoint compress_chunks (IS_DEBUG : bool) (table : Table) (chunk_ids : list ChunkID)
    (chunk_stats : list ChunkStatistics) (store : gmap ChunkPtr Chunk)
  : Result (list ChunkStatistics) * gmap ChunkPtr Chunk :=
  match chunk_ids with
  | [] => (Ok chunk_stats, store)
  | chunk_id :: chunk_ids' =>
      match Assert (bool_decide (chunk_id < N.of_nat (chunk_count table)))
              "Chunk with given ID does not exist.",
            get_chunk table (N.to_nat chunk_id) with
      | Err e, _ => (Err e, store)
      | Ok _, None => (Err UndefinedBehaviour, store)
      | Ok _, Some chunk =>
          match compress_chunk_at IS_DEBUG (column_types table) chunk store with
          | (Err e, store') => (Err e, store')
          | (Ok stats, store') =>
              compress_chunks IS_DEBUG table chunk_ids' (chunk_stats ++ [stats]) store'
          end
      end
  end.

(** ** The table-access operator, [GetTable] *)

Record GetTable : Type := mkGetTable {
  _name : string;
  _excluded_chunks : option (list ChunkID)
}.

(** [GetTable::GetTable(name)]. *)
Definition GetTable_new (name : string) : GetTable :=
  {| _name := name; _excluded_chunks := None |}.

Definition table_name (op : GetTable) : string := _name op.

(** [GetTable::recreate]; the arguments are not looked at. *)
Definition recreate {Args : Type} (op : GetTable) (args : list Args) : GetTable :=
  GetTable_new (_name op).

(** [GetTable::set_excluded_chunks]. *)
Definition set_excluded_chunks (excluded_chunks : list ChunkID) (op : GetTable) : GetTable :=
  {| _name := _name op; _excluded_chunks := Some excluded_chunks |}.

(** Modelled from the spec: [StorageManager::get_table], a NotFound error
    when no table of that name is registered. *)
Definition get_table (name : string) (store : Store) : Result TablePtr :=
  match storage_manager store !! name with
  | Some table => Ok table
  | None => Err NotFoundError
  end.

(** The loop of [_on_execute] (lines 44 to 49) over the chunk ids that
    remain. *)
Fixpoint prune_chunks (original_table : Table) (excluded_chunks_set : gset ChunkID)
    (chunk_ids : list nat) (pruned_table : Table) : Result Table :=
  match chunk_ids with
  | [] => Ok pruned_table
  | chunk_id :: chunk_ids' =>
      if decide (N.of_nat chunk_id ∈ excluded_chunks_set) then
        prune_chunks original_table excluded_chunks_set chunk_ids' pruned_table
      else
        match get_chunk original_table chunk_id with
        | Some chunk =>
            prune_chunks original_table excluded_chunks_set chunk_ids'
              (emplace_chunk chunk pruned_table)
        | None => Err UndefinedBehaviour
        end
  end.

(** [GetTable::_on_execute].  The pruned table is a new object: it is built
    and then placed at a location the store does not use yet. *)
Definition _on_execute (op : GetTable) (store : Store) : Result TablePtr * Store :=
  match get_table (_name op) store with
  | Err e => (Err e, store)
  | Ok original_table_ptr =>
      match _excluded_chunks op with
      | None | Some [] => (Ok original_table_ptr, store)
      | Some excluded_chunks =>
          match table_store store !! original_table_ptr with
          | None => (Err UndefinedBehaviour, store)
          | Some original_table =>
              let pruned_table :=
                create_with_layout_from original_table (max_chunk_size original_table) in
              let excluded_chunks_set : gset ChunkID := list_to_set excluded_chunks in
              match prune_chunks original_table excluded_chunks_set
                      (seq 0 (chunk_count original_table)) pruned_table with
              | Err e => (Err e, store)
              | Ok pruned_table =>
                  let pruned_table_ptr := fresh (dom (table_store store)) in
                  (Ok pruned_table_ptr,
                   {| chunk_store := chunk_store store;
                      table_store := <[pruned_table_ptr := pruned_table]> (table_store store);
                      storage_manager := storage_manager store |})
              end
          end
      end
  end.

(** ** Constant mappings, [constant_mappings.cpp] *)

(** The enumerations that the tables of [constant_mappings.cpp] map are
    declared in headers outside the files at hand.  Each is therefore any
    type that has the enumerators the tables name, pairwise distinct, as C++
    makes the enumerators of an enumeration that assigns them no values. *)
Module ScanType.
Class Enumerators (t : Type) `{Countable t} := {
  OpEquals : t; OpNotEquals : t; OpLessThan : t; OpLessThanEquals : t;
  OpGreaterThan : t; OpGreaterThanEquals : t; OpBetween : t; OpLike : t;
  distinct :
    NoDup [OpEquals; OpNotEquals; OpLessThan; OpLessThanEquals;
           OpGreaterThan; OpGreaterThanEquals; OpBetween; OpLike]
}.
End ScanType.

Module JoinMode.
Class Enumerators (t : Type) `{Countable t} := {
  Cross : t; Inner : t; Left : t; Natural : t; Outer : t; Right : t; Self : t;
  distinct : NoDup [Cross; Inner; Left; Natural; Outer; Right; Self]
}.
End JoinMode.

(** [ExpressionType::Parameter] is written [Parameter_]: the name is a
    reserved word. *)
Module ExpressionType.
Class Enumerators (t : Type) `{Countable t} := {
  Literal : t; Star : t; Parameter_ : t; ColumnReference : t; FunctionReference : t;
  Operator : t; Select : t; Plus : t; Minus : t; Asterisk : t; Slash : t;
  Percentage : t; Caret : t; Equals : t; NotEquals : t; Less : t; LessEquals : t;
  Greater : t; GreaterEquals : t; Like : t; NotLike : t; And : t; Or : t; In : t;
  Not : t; IsNull : t; Exists : t; Between : t; Hint : t; Case : t;
  distinct :
    NoDup [Literal; Star; Parameter_; ColumnReference; FunctionReference;
           Operator; Select; Plus; Minus; Asterisk; Slash; Percentage; Caret;
           Equals; NotEquals; Less; LessEquals; Greater; GreaterEquals; Like;
           NotLike; And; Or; In; Not; IsNull; Exists; Between; Hint; Case]
}.
End ExpressionType.

Module AggregateFunction.
Class Enumerators (t : Type) `{Countable t} := {
  Min : t; Max : t; Sum : t; Avg : t; Count : t;
  distinct : NoDup [Min; Max; Sum; Avg; Count]
}.
End AggregateFunction.

(** A [const std::unordered_map] built from an initializer list is the
    finite map of the listed pairs; a key that is not listed has no entry
    ([at] throws, [find] returns [end()]). *)
Definition string_to_scan_type `{ScanType.Enumerators t} : gmap string t :=
  list_to_map
    [("=", ScanType.OpEquals); ("!=", ScanType.OpNotEquals); ("<", ScanType.OpLessThan);
     ("<=", ScanType.OpLessThanEquals); (">", ScanType.OpGreaterThan);
     (">=", ScanType.OpGreaterThanEquals); ("BETWEEN", ScanType.OpBetween);
     ("LIKE", ScanType.OpLike)].

Definition scan_type_to_string `{ScanType.Enumerators t} : gmap t string :=
  list_to_map
    [(ScanType.OpEquals, "="); (ScanType.OpNotEquals, "!="); (ScanType.OpLessThan, "<");
     (ScanType.OpLessThanEquals, "<="); (ScanType.OpGreaterThan, ">");
     (ScanType.OpGreaterThanEquals, ">="); (ScanType.OpBetween, "BETWEEN");
     (ScanType.OpLike, "LIKE")].

Definition join_mode_to_string `{JoinMode.Enumerators t} : gmap t string :=
  list_to_map
    [(JoinMode.Cross, "Cross"); (JoinMode.Inner, "Inner"); (JoinMode.Left, "Left");
     (JoinMode.Natural, "Natural"); (JoinMode.Outer, "Outer"); (JoinMode.Right, "Right");
     (JoinMode.Self, "Self")].

Definition expression_type_to_string `{ExpressionType.Enumerators t} : gmap t string :=
  list_to_map
    [(ExpressionType.Literal, "Literal");
     (ExpressionType.Star, "Star");
     (ExpressionType.Parameter_, "Parameter");
     (ExpressionType.ColumnReference, "ColumnReference");
     (ExpressionType.FunctionReference, "FunctionReference");
     (ExpressionType.Operator, "Operator");
     (ExpressionType.Select, "Select");
     (ExpressionType.Plus, "Plus");
     (ExpressionType.Minus, "Minus");
     (ExpressionType.Asterisk, "Asterisk");
     (ExpressionType.Slash, "Slash");
     (ExpressionType.Percentage, "Percentage");
     (ExpressionType.Caret, "Caret");
     (ExpressionType.Equals, "Equals");
     (ExpressionType.NotEquals, "NotEquals");
     (ExpressionType.Less, "Less");
     (ExpressionType.LessEquals, "LessEquals");
     (ExpressionType.Greater, "Greater");
     (ExpressionType.GreaterEquals, "GreaterEquals");
     (ExpressionType.Like, "Like");
     (ExpressionType.NotLike, "NotLike");
     (ExpressionType.And, "And");
     (ExpressionType.Or, "Or");
     (ExpressionType.In, "In");
     (ExpressionType.Not, "Not");
     (ExpressionType.IsNull, "IsNull");
     (ExpressionType.Exists, "Exists");
     (ExpressionType.Between, "Between");
     (ExpressionType.Hint, "Hint");
     (ExpressionType.Case, "Case")].

Definition string_to_aggregate_function `{AggregateFunction.Enumerators t} : gmap string t :=
  list_to_map
    [("MIN", AggregateFunction.Min); ("MAX", AggregateFunction.Max);
     ("SUM", AggregateFunction.Sum); ("AVG", AggregateFunction.Avg);
     ("COUNT", AggregateFunction.Count)].

(** ** Vocabulary of the statements *)

(** [a < b], as a proposition. *)
Definition lt_elem {T : Type} `{Element T} (a b : T) : Prop := less a b = true.

(** What the loops of the compressor write for a row. *)
Definition encode_row {T : Type} `{Element T} (d : list T) (value : T) (is_null : bool)
  : ValueID :=
  if is_null then NULL_VALUE_ID else get_value_id d value.

Definition encoded_rows {T : Type} `{Element T} (d : list T) (c : ValueColumn T)
  : list ValueID :=
  match null_values c with
  | Some nulls => zip_with (encode_row d) (values c) nulls
  | None => get_value_id d <$> values c
  end.

(** The messages of the two assertions. *)
Definition already_compressed : string :=
  "Column is either already compressed or type mismatches.".

Definition column_count_mismatch : string :=
  "Number of column types does not match the chunk’s column count.".

(** The chunk ids of a table with [n] chunks. *)
Definition valid_chunk_ids (n : nat) : gset ChunkID := list_to_set (N.of_nat <$> seq 0 n).

(** The chunks of a chunk sequence whose ids, counted from 0, are not
    excluded, in their order. *)
Definition retained_chunks (excluded : gset ChunkID) (first_id : nat)
    (chunks : list ChunkPtr) : list ChunkPtr :=
  (filter (λ ic : nat * ChunkPtr, N.of_nat ic.1 ∉ excluded)
     (zip (seq first_id (length chunks)) chunks)).*2.

(** The column is a value column, or a dictionary column, of the data
    type. *)
Definition is_value_column_of (data_type : DataType) (column : BaseColumn) : Prop :=
  ∃ c, column = ValueColumnOf data_type c.

Definition is_dictionary_column_of (data_type : DataType) (column : BaseColumn) : Prop :=
  ∃ dc, column = DictionaryColumnOf data_type dc.

(** A chunk as [compress_chunk] expects it: a value column of the data type
    at each position, all of the row count of the chunk. *)
Definition value_chunk (column_types : list DataType) (chunk : Chunk) : Prop :=
  Forall2 is_value_column_of column_types (columns chunk) ∧
  Forall (λ column, column_size column = chunk_size chunk) (columns chunk).

(** ** Examples *)

(** Example columns: scenario 1 and scenario 2 of the specification, and a
    nullable integer column. *)
Definition int_column : ValueColumn (type_of DataType.Int) :=
  mkValueColumn [5; 1; 3; 1; 5]%Z None.

Definition string_column : ValueColumn (type_of DataType.String) :=
  mkValueColumn ["b"; "a"; ""; "b"; ""] (Some [false; false; true; false; true]).

Definition nullable_int_column : ValueColumn (type_of DataType.Int) :=
  mkValueColumn [7; 0; 3; 0; 5; 0; 0]%Z (Some [false; true; false; true; false; true; true]).

Definition nan_column : ValueColumn spec_float := mkValueColumn [S754_nan] None.

Definition compressed_int_column : DictionaryColumn (type_of DataType.Int) :=
  {| dictionary := [1; 3; 5]%Z;
     attribute_vector := {| width := 1; attributes := [2; 0; 1; 0; 2] |} |}.

Definition compressed_chunk : Chunk :=
  {| columns := [DictionaryColumnOf DataType.Int compressed_int_column];
     mvcc_columns := None;
     statistics :=
       Some [Some (StatisticsOf DataType.Int {| stat_min := 1%Z; stat_max := 5%Z |})] |}.

Definition compressed_table : Table :=
  {| schema := [mkColumnDefinition "a" DataType.Int false];
     max_chunk_size := 5;
     chunks := [1%positive] |}.

Definition one_column_chunk : Chunk :=
  {| columns := [ValueColumnOf DataType.Int int_column];
     mvcc_columns := None;
     statistics := None |}.

(** A nullable floating-point column: NaN, a null row, NaN. *)
Definition nullable_float_column : ValueColumn (type_of DataType.Double) :=
  mkValueColumn [S754_nan; S754_zero false; S754_nan] (Some [false; true; false]).

(** Floating-point columns.  [float_column] and [float_ranks_column] hold
    both zeros and, in their null row, a NaN; [zeros_column] holds the two
    zeros; the others hold a NaN in a row that is not null. *)
Definition float_column : ValueColumn (type_of DataType.Double) :=
  mkValueColumn
    [S754_zero false; S754_zero true; S754_infinity false; S754_nan; S754_infinity true]
    (Some [false; false; false; true; false]).

Definition float_ranks_column : ValueColumn (type_of DataType.Double) :=
  mkValueColumn
    [S754_infinity false; S754_zero true; S754_nan; S754_zero false; S754_infinity true;
     S754_infinity false]
    (Some [false; false; true; false; false; false]).

Definition zeros_column : ValueColumn (type_of DataType.Double) :=
  mkValueColumn [S754_zero false; S754_zero true] None.

Definition nan_last_column : ValueColumn (type_of DataType.Double) :=
  mkValueColumn [S754_zero false; S754_nan] None.

Definition nan_first_column : ValueColumn (type_of DataType.Double) :=
  mkValueColumn [S754_nan; S754_zero false] None.

Definition nan_twice_column : ValueColumn (type_of DataType.Double) :=
  mkValueColumn [S754_nan; S754_nan] None.

Definition nan_float_column : ValueColumn spec_float :=
  mkValueColumn
    [S754_infinity false; S754_nan; S754_infinity true; S754_zero false; S754_nan]
    (Some [false; false; false; true; false]).

(** A table of four chunks registered as "t", and the operator that
    excludes its chunks 1 and 3 (scenario 5 of the specification). *)
Definition four_chunk_table : Table :=
  {| schema := [mkColumnDefinition "a" DataType.Int false];
     max_chunk_size := 5;
     chunks := [1; 2; 3; 4]%positive |}.

Definition four_chunk_store : Store :=
  {| chunk_store :=
       list_to_map [(1, one_column_chunk); (2, one_column_chunk);
                    (3, one_column_chunk); (4, one_column_chunk)]%positive;
     table_store := {[ 7%positive := four_chunk_table ]};
     storage_manager := {[ "t" := 7%positive ]} |}.

Definition pruning_operator : GetTable := set_excluded_chunks [1; 3] (GetTable_new "t").

(** A chunk of two value columns. *)
Definition two_column_chunk : Chunk :=
  {| columns := [ValueColumnOf DataType.Int int_column;
                 ValueColumnOf DataType.String string_column];
     mvcc_columns := None;
     statistics := None |}.

(** A table of one chunk of one value column, and the chunks of its store. *)
Definition one_chunk_table : Table :=
  {| schema := [mkColumnDefinition "a" DataType.Int false];
     max_chunk_size := 5;
     chunks := [1%positive] |}.

Definition value_store : gmap ChunkPtr Chunk :=
  {[ 1%positive := one_column_chunk ]}.

(** ** Facts about the sorting pipeline *)

Section SortingFacts.
Context {T : Type} `{TotalOrder T}.

Lemma less_asym (a b : T) : less a b = true → less b a = false.
Proof.
  intros Hab. destruct (less b a) eqn:Hba; [|done].
  rewrite <- (less_irrefl a). symmetry. by apply less_trans with b.
Qed.

Lemma not_greater_cases (a b : T) : not_greater a b → a = b ∨ less a b = true.
Proof.
  unfold not_greater. intros Hba.
  destruct (less a b) eqn:Hab; [by right|left]. by apply less_total.
Qed.

#[local] Instance not_greater_total : Total (not_greater (T:=T)).
Proof.
  intros a b. unfold not_greater.
  destruct (less b a) eqn:Hba; [right|by left]. by apply less_asym.
Qed.

#[local] Instance not_greater_trans : Transitive (not_greater (T:=T)).
Proof.
  intros a b c Hab Hbc.
  destruct (not_greater_cases _ _ Hab) as [->|Hab']; [done|].
  destruct (not_greater_cases _ _ Hbc) as [<-|Hbc']; [done|].
  unfold not_greater. apply less_asym. by apply less_trans with b.
Qed.

Lemma lt_not_greater_trans (a b c : T) :
  less a b = true → not_greater b c → less a c = true.
Proof.
  intros Hab Hbc. destruct (not_greater_cases _ _ Hbc) as [<-|Hbc']; [done|].
  by apply less_trans with b.
Qed.

Lemma sort_Permutation (v : list T) : sort v ≡ₚ v.
Proof. apply merge_sort_Permutation. Qed.

Lemma sort_StronglySorted (v : list T) : StronglySorted not_greater (sort v).
Proof. apply StronglySorted_merge_sort; apply _. Qed.

Lemma unique_from_spec (kept : T) (v : list T) :
  StronglySorted not_greater (kept :: v) →
  StronglySorted lt_elem (unique_from kept v) ∧
  (∀ x, x ∈ unique_from kept v ↔ x ∈ kept :: v).
Proof.
  revert kept. induction v as [|x v IH]; intros kept Hs; simpl.
  - split; [repeat constructor|done].
  - apply StronglySorted_inv in Hs as [Hs Hk].
    apply Forall_cons in Hk as [Hkx Hkv].
    destruct (equal kept x) eqn:Heq.
    + apply equal_spec in Heq as <-.
      destruct (IH kept) as [IH1 IH2]; [done|].
      split; [done|]. intros y. rewrite IH2, !elem_of_cons. tauto.
    + destruct (IH x Hs) as [IH1 IH2].
      assert (less kept x = true) as Hlt.
      { destruct (not_greater_cases _ _ Hkx) as [->|]; [|done].
        assert (equal x x = true) by by apply equal_spec. congruence. }
      split.
      * constructor; [done|]. apply Forall_forall. intros y Hy.
        apply IH2 in Hy. apply StronglySorted_inv in Hs as [_ Hxv].
        apply elem_of_cons in Hy as [->|Hy]; [done|].
        apply lt_not_greater_trans with x; [done|].
        by eapply Forall_forall in Hxv.
      * intros y. rewrite !elem_of_cons, IH2, elem_of_cons. done.
Qed.

Lemma unique_spec (v : list T) :
  StronglySorted not_greater v →
  StronglySorted lt_elem (unique v) ∧ (∀ x, x ∈ unique v ↔ x ∈ v).
Proof.
  destruct v as [|x v]; simpl; [by split; [constructor|]|].
  apply unique_from_spec.
Qed.

Lemma StronglySorted_lt_NoDup (d : list T) : StronglySorted lt_elem d → NoDup d.
Proof.
  induction 1 as [|a d Hs IH Ha]; constructor; [|done].
  intros Hin. eapply Forall_forall in Ha; [|done].
  unfold lt_elem in Ha. by rewrite less_irrefl in Ha.
Qed.

Lemma StronglySorted_lt_lookup (d : list T) (i j : nat) (x y : T) :
  StronglySorted lt_elem d → d !! i = Some x → d !! j = Some y →
  (i < j)%nat → less x y = true.
Proof.
  intros Hs. revert i j. induction Hs as [|a d Hs IH Ha]; intros i j Hi Hj Hij.
  - done.
  - destruct j as [|j]; [lia|]. destruct i as [|i]; simpl in *.
    + injection Hi as ->. eapply Forall_forall in Ha; [done|].
      by eapply list_elem_of_lookup_2.
    + apply (IH i j); [done..|lia].
Qed.

End SortingFacts.

(** ** Facts about the binary search *)

Section LowerBoundFacts.
Context {T : Type} `{Element T}.

(** The search stays inside the range it is given. *)
Lemma lower_bound_loop_bounds (v : list T) (value : T) (first len : nat) :
  (first ≤ lower_bound_loop v value first len ≤ first + len)%nat.
Proof.
  funelim (lower_bound_loop v value first len); try lia.
  all: pose proof (Nat.lt_div2 (S n) ltac:(lia)); simpl in *; lia.
Qed.

Lemma lower_bound_le_length (v : list T) (value : T) :
  (lower_bound v value ≤ length v)%nat.
Proof. unfold lower_bound. pose proof (lower_bound_loop_bounds v value 0 (length v)). lia. Qed.

(** On a range partitioned by [_ < value] the search returns the partition
    point. *)
Lemma lower_bound_loop_partition (v : list T) (value : T) (first len : nat) :
  (first + len ≤ length v)%nat →
  (∀ i j x y, (i ≤ j)%nat → v !! i = Some x → v !! j = Some y →
              less y value = true → less x value = true) →
  (∀ i x, (i < first)%nat → v !! i = Some x → less x value = true) →
  (∀ i x, (first + len ≤ i)%nat → v !! i = Some x → less x value = false) →
  let r := lower_bound_loop v value first len in
  (∀ i x, (i < r)%nat → v !! i = Some x → less x value = true) ∧
  (∀ i x, (r ≤ i)%nat → v !! i = Some x → less x value = false).
Proof.
  funelim (lower_bound_loop v value first len); intros Hlen Hmono Hlo Hhi; simpl.
  - split; [done|]. intros i x Hi. apply Hhi. lia.
  - apply lookup_ge_None in Heq.
    pose proof (Nat.lt_div2 (S n) ltac:(lia)). lia.
  - pose proof (Nat.lt_div2 (S n) ltac:(lia)) as Hhalf.
    apply H0; [lia|done| |].
    + intros i x Hi Hx. apply (Hmono i (first + Nat.div2 (S n))%nat x middle); [lia|done..].
    + intros i x Hi. apply Hhi. lia.
  - pose proof (Nat.lt_div2 (S n) ltac:(lia)) as Hhalf.
    apply H0; [lia|done..|].
    intros i x Hi Hx. destruct (less x value) eqn:Hxv; [|done].
    rewrite <- Heq. symmetry.
    apply (Hmono (first + Nat.div2 (S n))%nat i middle x); [lia|done..].
Qed.

End LowerBoundFacts.

Section LowerBoundSorted.
Context {T : Type} `{TotalOrder T}.

(** On a strictly sorted dictionary the search returns the point that
    splits the entries below the value from the others. *)
Lemma lower_bound_partition_point (d : list T) (value : T) :
  StronglySorted lt_elem d →
  (∀ i x, (i < lower_bound d value)%nat → d !! i = Some x → less x value = true) ∧
  (∀ i x, (lower_bound d value ≤ i)%nat → d !! i = Some x → less x value = false).
Proof.
  intros Hs. apply (lower_bound_loop_partition d value 0 (length d)).
  - lia.
  - intros i j x y Hij Hx Hy Hyv.
    destruct (decide (i = j)) as [->|Hne]; [congruence|].
    apply less_trans with y; [|done].
    apply (StronglySorted_lt_lookup d i j); [done..|lia].
  - intros i x Hi. lia.
  - intros i x Hi Hx. apply lookup_lt_Some in Hx. simpl in Hi. lia.
Qed.

(** In a strictly sorted dictionary the search finds the position of every
    value the dictionary holds. *)
Lemma lower_bound_lookup (d : list T) (value : T) :
  StronglySorted lt_elem d → value ∈ d → d !! lower_bound d value = Some value.
Proof.
  intros Hs Hin. apply list_elem_of_lookup in Hin as [k Hk].
  destruct (lower_bound_partition_point d value Hs) as [Hlo Hhi].
  destruct (Nat.lt_trichotomy (lower_bound d value) k) as [Hlt|[->|Hgt]].
  - destruct (lookup_lt_is_Some_2 d (lower_bound d value)) as [x Hx].
    { apply lookup_lt_Some in Hk. lia. }
    pose proof (StronglySorted_lt_lookup d _ _ _ _ Hs Hx Hk Hlt) as Hxv.
    rewrite (Hhi _ x (Nat.le_refl _) Hx) in Hxv. done.
  - done.
  - pose proof (Hlo k value Hgt Hk) as Hvv. by rewrite less_irrefl in Hvv.
Qed.

(** The first entry of the dictionary is found at position 0. *)
Lemma lower_bound_head (d : list T) (value : T) :
  StronglySorted lt_elem d → head d = Some value → lower_bound d value = 0%nat.
Proof.
  intros Hs Hhd. destruct d as [|x d]; [done|]. simpl in Hhd. injection Hhd as ->.
  pose proof (lower_bound_lookup (value :: d) value Hs ltac:(left)) as Hl.
  destruct (lower_bound (value :: d) value) as [|r] eqn:Hr; [done|].
  assert (less value value = true) as Hvv.
  { apply (StronglySorted_lt_lookup (value :: d) 0 (S r)); [done..|lia]. }
  by rewrite less_irrefl in Hvv.
Qed.

End LowerBoundSorted.

(** ** Facts about the removal of null values *)

Section NullRemovalFacts.
Context {T : Type} `{Element T}.

Lemma swap_cons (x : T) (v : list T) (i j : nat) :
  swap (S i) (S j) (x :: v) = x :: swap i j v.
Proof.
  unfold swap. simpl. destruct (v !! i), (v !! j); done.
Qed.

Lemma swap_app_l (P v : list T) (i j : nat) :
  swap (length P + i) (length P + j) (P ++ v) = P ++ swap i j v.
Proof.
  induction P as [|x P IH]; simpl; [done|]. by rewrite swap_cons, IH.
Qed.

Lemma swap_same (v : list T) (i : nat) : swap i i v = v.
Proof.
  unfold swap. destruct (v !! i) as [a|] eqn:Ha; [|done].
  rewrite list_insert_insert_eq. by apply list_insert_id.
Qed.

Lemma swap_ends (a b : T) (M N : list T) :
  swap 0 (S (length M)) (a :: M ++ b :: N) = b :: M ++ a :: N.
Proof.
  unfold swap. simpl. rewrite list_lookup_middle by done. simpl.
  f_equal. rewrite insert_app_r_alt by lia. by rewrite Nat.sub_diag.
Qed.

Lemma keep_non_null_snoc (P : list T) (nulls : list bool) (v : T) (b : bool) :
  length nulls = length P →
  keep_non_null (P ++ [v]) (nulls ++ [b]) =
  keep_non_null P nulls ++ (if b then [] else [v]).
Proof.
  revert nulls. induction P as [|x P IH]; intros [|c nulls] Hlen; simplify_eq/=.
  - by destruct b.
  - rewrite IH by done. by destruct c.
Qed.

Lemma swap_nulls_to_back_spec (P : list T) (nulls : list bool) (M N : list T) :
  length nulls = length P →
  ∃ M' N',
    swap_nulls_to_back (length P) (reverse nulls) (P ++ M ++ N) (length P + length M)
      = (M' ++ N', length M') ∧
    M' ≡ₚ keep_non_null P nulls ++ M.
Proof.
  revert nulls M N. induction P as [|v P IH] using rev_ind; intros nulls M N Hlen.
  - destruct nulls; [|done]. exists M, N. done.
  - destruct nulls as [|b nulls _] using rev_ind.
    { rewrite length_app in Hlen. simpl in Hlen. lia. }
    rewrite !length_app in Hlen. simpl in Hlen.
    assert (length nulls = length P) as Hlen' by lia.
    rewrite keep_non_null_snoc by done.
    rewrite reverse_snoc, length_app. simpl.
    replace (length P + 1)%nat with (S (length P)) by lia. simpl.
    rewrite <- (assoc_L (++) P [v]). simpl.
    destruct b.
    + rewrite app_nil_r.
      replace (length P + length M - 0)%nat with (length P + length M)%nat by lia.
      destruct M as [|m M _] using rev_ind.
      * simpl. rewrite Nat.add_0_r.
        rewrite swap_same.
        destruct (IH nulls [] (v :: N) Hlen') as (M' & N' & Heq & Hperm).
        simpl in Heq. rewrite Nat.add_0_r in Heq.
        exists M', N'. done.
      * rewrite length_app. simpl.
        replace (swap (length P) (length P + (length M + 1))
                   (P ++ v :: (M ++ [m]) ++ N))
          with (P ++ (m :: M) ++ v :: N).
        2:{ replace (length P) with (length P + 0)%nat at 1 by lia.
            rewrite swap_app_l. f_equal.
            rewrite <- (assoc_L (++) M [m]). simpl.
            replace (length M + 1)%nat with (S (length M)) by lia.
            by rewrite swap_ends. }
        replace (length P + (length M + 1))%nat with (length P + length (m :: M))%nat
          by (simpl; lia).
        destruct (IH nulls (m :: M) (v :: N) Hlen') as (M' & N' & Heq & Hperm).
        exists M', N'. split; [done|].
        rewrite Hperm. apply Permutation_app_head.
        by rewrite Permutation_cons_append.
    + replace (S (length P + length M)) with (length P + length (v :: M))%nat
        by (simpl; lia).
      destruct (IH nulls (v :: M) N Hlen') as (M' & N' & Heq & Hperm).
      exists M', N'. split; [exact Heq|].
      rewrite Hperm, <- (assoc_L (++)). done.
Qed.

Lemma remove_null_values_Permutation (nulls : list bool) (vs : list T) :
  length nulls = length vs →
  remove_null_values nulls vs ≡ₚ keep_non_null vs nulls.
Proof.
  intros Hlen. unfold remove_null_values.
  destruct (swap_nulls_to_back_spec vs nulls [] [] Hlen) as (M' & N' & Heq & Hperm).
  rewrite app_nil_r, Nat.add_0_r in Heq. rewrite Heq.
  rewrite take_app_length. by rewrite Hperm, app_nil_r.
Qed.

End NullRemovalFacts.

(** ** Facts about the loops that fill the attribute vector *)

Section FillFacts.
Context {T : Type} `{Element T}.

Lemma to_uint32_le (n : N) : to_uint32 n ≤ n.
Proof. unfold to_uint32. apply N.Div0.mod_le. Qed.

Lemma to_uint32_small (n : N) : n < UINT32_MODULUS → to_uint32 n = n.
Proof. unfold to_uint32. apply N.mod_small. Qed.

Lemma get_value_id_le (d : list T) (value : T) :
  get_value_id d value ≤ N.of_nat (length d).
Proof.
  unfold get_value_id. etrans; [apply to_uint32_le|].
  pose proof (lower_bound_le_length d value). lia.
Qed.

Lemma get_value_id_small (d : list T) (value : T) :
  N.of_nat (length d) < UINT32_MODULUS →
  get_value_id d value = N.of_nat (lower_bound d value).
Proof.
  intros Hd. unfold get_value_id. apply to_uint32_small.
  pose proof (lower_bound_le_length d value). lia.
Qed.

(** Every value id the compressor computes fits the width it chose. *)
Lemma get_value_id_fits (d : list T) (value : T) (size : nat) :
  get_value_id d value <
  2 ^ (8 * width (_create_fitted_attribute_vector (N.of_nat (length d) + 1) size)).
Proof.
  pose proof (get_value_id_le d value) as Hle.
  unfold _create_fitted_attribute_vector, UINT8_MAX, UINT16_MAX.
  repeat case_decide; simpl width.
  - change (2 ^ (8 * 1)) with 256. lia.
  - change (2 ^ (8 * 2)) with 65536. lia.
  - change (2 ^ (8 * 4)) with UINT32_MODULUS. unfold get_value_id, to_uint32.
    apply N.mod_upper_bound. done.
Qed.

Lemma av_set_ok (i : N) (x : ValueID) (av : FittedAttributeVector) :
  i < N.of_nat (av_size av) → x < 2 ^ (8 * width av) →
  av_set i x av =
  Ok {| width := width av; attributes := <[N.to_nat i := x]> (attributes av) |}.
Proof. intros Hi Hx. unfold av_set. by rewrite decide_True. Qed.

Lemma NULL_VALUE_ID_fits (w : N) : NULL_VALUE_ID < 2 ^ (8 * w).
Proof. unfold NULL_VALUE_ID. apply N.neq_0_lt_0, N.pow_nonzero. done. Qed.

(** The loops never fail and keep the width and the size, whatever the
    number of rows. *)
Lemma fill_nullable_total (d vs : list T) (nulls : list bool) (index : N)
    (av : FittedAttributeVector) :
  index + N.of_nat (length vs) ≤ N.of_nat (av_size av) →
  (∀ v, get_value_id d v < 2 ^ (8 * width av)) →
  ∃ av', fill_nullable d vs nulls index av = Ok av' ∧
         width av' = width av ∧ av_size av' = av_size av.
Proof.
  revert nulls index av. induction vs as [|v vs IH]; intros nulls index av Hidx Hfit.
  - exists av. by destruct nulls.
  - simpl length in Hidx.
    assert (∀ x, x < 2 ^ (8 * width av) →
      ∃ av1, av_set index x av = Ok av1 ∧ width av1 = width av ∧
             av_size av1 = av_size av ∧
             to_uint32 (index + 1) + N.of_nat (length vs) ≤ N.of_nat (av_size av1))
      as Hset.
    { intros x Hx. eexists. split; [apply av_set_ok; [lia|done]|].
      unfold av_size. simpl. rewrite length_insert.
      pose proof (to_uint32_le (index + 1)). unfold av_size in Hidx.
      repeat split; lia. }
    destruct nulls as [|[] nulls]; simpl.
    + destruct (Hset _ (Hfit v)) as (av1 & -> & Hw & Hs & Hi). simpl.
      destruct (IH [] _ av1 Hi) as (av' & -> & Hw' & Hs').
      { by rewrite Hw. }
      exists av'. repeat split; congruence.
    + destruct (Hset _ (NULL_VALUE_ID_fits (width av))) as (av1 & -> & Hw & Hs & Hi).
      simpl. destruct (IH nulls _ av1 Hi) as (av' & -> & Hw' & Hs').
      { by rewrite Hw. }
      exists av'. repeat split; congruence.
    + destruct (Hset _ (Hfit v)) as (av1 & -> & Hw & Hs & Hi). simpl.
      destruct (IH nulls _ av1 Hi) as (av' & -> & Hw' & Hs').
      { by rewrite Hw. }
      exists av'. repeat split; congruence.
Qed.

Lemma fill_not_nullable_total (d vs : list T) (index : N) (av : FittedAttributeVector) :
  index + N.of_nat (length vs) ≤ N.of_nat (av_size av) →
  (∀ v, get_value_id d v < 2 ^ (8 * width av)) →
  ∃ av', fill_not_nullable d vs index av = Ok av' ∧
         width av' = width av ∧ av_size av' = av_size av.
Proof.
  revert index av. induction vs as [|v vs IH]; intros index av Hidx Hfit.
  - by exists av.
  - simpl length in Hidx. simpl.
    rewrite av_set_ok; [|lia|done]. simpl.
    edestruct (IH (to_uint32 (index + 1))) as (av' & -> & Hw' & Hs').
    { unfold av_size in *. simpl. rewrite length_insert.
      pose proof (to_uint32_le (index + 1)). lia. }
    { done. }
    exists av'. unfold av_size in *. simpl in *. rewrite length_insert in Hs'. done.
Qed.

(** With fewer than [2^32] rows the index never wraps and row [i] of the
    attribute vector receives the id of row [i] of the column. *)
Lemma fill_nullable_spec (d vs : list T) (nulls : list bool) (w : N)
    (filled rest : list ValueID) :
  length nulls = length vs → length rest = length vs →
  N.of_nat (length filled + length vs) < UINT32_MODULUS →
  (∀ v, get_value_id d v < 2 ^ (8 * w)) →
  fill_nullable d vs nulls (N.of_nat (length filled))
    {| width := w; attributes := filled ++ rest |}
  = Ok {| width := w; attributes := filled ++ zip_with (encode_row d) vs nulls |}.
Proof.
  revert nulls filled rest.
  induction vs as [|v vs IH]; intros nulls filled rest Hn Hr Hlen Hfit.
  - destruct rest; [|done]. destruct nulls; done.
  - destruct nulls as [|b nulls]; [done|]. destruct rest as [|r rest]; [done|].
    simpl in Hn, Hr, Hlen.
    assert (∀ x, x < 2 ^ (8 * w) →
      av_set (N.of_nat (length filled)) x {| width := w; attributes := filled ++ r :: rest |}
      = Ok {| width := w; attributes := (filled ++ [x]) ++ rest |}) as Hset.
    { intros x Hx. rewrite av_set_ok; simpl; [|unfold av_size; simpl; rewrite length_app; simpl; lia|done].
      rewrite Nat2N.id, insert_app_r_alt, Nat.sub_diag by lia. simpl.
      by rewrite <- (assoc_L (++)). }
    assert (∀ x : ValueID,
      to_uint32 (N.of_nat (length filled) + 1) = N.of_nat (length (filled ++ [x]))) as Hidx.
    { intros x. rewrite length_app. simpl. rewrite to_uint32_small by lia. lia. }
    assert (∀ x : ValueID,
      N.of_nat (length (filled ++ [x]) + length vs) < UINT32_MODULUS) as Hlen'.
    { intros x. rewrite length_app. simpl. lia. }
    simpl zip_with.
    destruct b; simpl; rewrite Hset by (done || apply NULL_VALUE_ID_fits); simpl.
    + rewrite (Hidx NULL_VALUE_ID).
      rewrite IH; [by rewrite <- (assoc_L (++))|lia|lia|done|done].
    + rewrite (Hidx (get_value_id d v)).
      rewrite IH; [by rewrite <- (assoc_L (++))|lia|lia|done|done].
Qed.

Lemma fill_not_nullable_spec (d vs : list T) (w : N) (filled rest : list ValueID) :
  length rest = length vs →
  N.of_nat (length filled + length vs) < UINT32_MODULUS →
  (∀ v, get_value_id d v < 2 ^ (8 * w)) →
  fill_not_nullable d vs (N.of_nat (length filled))
    {| width := w; attributes := filled ++ rest |}
  = Ok {| width := w; attributes := filled ++ (get_value_id d <$> vs) |}.
Proof.
  revert filled rest.
  induction vs as [|v vs IH]; intros filled rest Hr Hlen Hfit.
  - destruct rest; done.
  - destruct rest as [|r rest]; [done|]. simpl in Hr, Hlen. simpl.
    rewrite av_set_ok; simpl;
      [|unfold av_size; simpl; rewrite length_app; simpl; lia|done].
    rewrite Nat2N.id, insert_app_r_alt, Nat.sub_diag by lia. simpl.
    replace (to_uint32 (N.of_nat (length filled) + 1))
      with (N.of_nat (length (filled ++ [get_value_id d v]))).
    2:{ rewrite length_app. simpl. rewrite to_uint32_small by lia. lia. }
    rewrite (cons_middle _ filled rest), (assoc_L (++) filled [_] rest).
    rewrite IH; [by rewrite <- (assoc_L (++))|lia| |done].
    rewrite length_app. simpl. lia.
Qed.

End FillFacts.

(** ** The compressor on a value column *)

Section CompressValueColumn.
Context {T : Type} `{Element T}.

(** The compressor never fails on a value column: it returns the
    dictionary of the column, an attribute vector of the width fitted to
    that dictionary with one entry per row, and the statistics of the
    dictionary. *)
Lemma compress_value_column_total (c : ValueColumn T) :
  ∃ av,
    compress_value_column c =
      Ok (mkDictionaryColumn (build_dictionary c) av, make_stats (build_dictionary c)) ∧
    width av =
      width (_create_fitted_attribute_vector
               (N.of_nat (length (build_dictionary c)) + 1) (length (values c))) ∧
    av_size av = length (values c).
Proof.
  unfold compress_value_column.
  set (d := build_dictionary c).
  set (av0 := _create_fitted_attribute_vector _ _).
  assert (av_size av0 = length (values c)) as Hsize.
  { unfold av0, _create_fitted_attribute_vector, av_size.
    repeat case_decide; simpl; apply length_replicate. }
  assert (∀ v, get_value_id d v < 2 ^ (8 * width av0)) as Hfit.
  { intros v. apply get_value_id_fits. }
  destruct (null_values c) as [nulls|].
  - destruct (fill_nullable_total d (values c) nulls 0 av0) as (av & -> & Hw & Hs);
      [lia|done|].
    exists av. simpl. by rewrite Hw, Hs.
  - destruct (fill_not_nullable_total d (values c) 0 av0) as (av & -> & Hw & Hs);
      [lia|done|].
    exists av. simpl. by rewrite Hw, Hs.
Qed.

(** With fewer than [2^32] rows, row [i] of the attribute vector holds what
    the loops write for row [i] of the column. *)
Lemma compress_value_column_rows (c : ValueColumn T) :
  wf_column c → N.of_nat (length (values c)) < UINT32_MODULUS →
  ∃ w,
    compress_value_column c =
      Ok (mkDictionaryColumn (build_dictionary c)
            {| width := w; attributes := encoded_rows (build_dictionary c) c |},
          make_stats (build_dictionary c)).
Proof.
  intros Hwf Hrows. unfold compress_value_column, encoded_rows, wf_column in *.
  set (d := build_dictionary c).
  set (av0 := _create_fitted_attribute_vector _ _).
  assert (∀ v, get_value_id d v < 2 ^ (8 * width av0)) as Hfit.
  { intros v. apply get_value_id_fits. }
  assert (av0 = {| width := width av0; attributes := [] ++ replicate (length (values c)) 0 |})
    as Hav0.
  { unfold av0, _create_fitted_attribute_vector. by repeat case_decide. }
  exists (width av0). rewrite Hav0. simpl width.
  destruct (null_values c) as [nulls|].
  - rewrite (fill_nullable_spec d (values c) nulls (width av0) []); simpl;
      [done|done|by rewrite length_replicate|done|done].
  - rewrite (fill_not_nullable_spec d (values c) (width av0) []); simpl;
      [done|by rewrite length_replicate|done|done].
Qed.

Lemma encoded_rows_null (d : list T) (c : ValueColumn T) (i : nat) (v : T) :
  values c !! i = Some v → row_is_null c i →
  encoded_rows d c !! i = Some NULL_VALUE_ID.
Proof.
  unfold row_is_null, encoded_rows. intros Hv Hnull.
  destruct (null_values c) as [nulls|]; [|done].
  rewrite lookup_zip_with, Hv, Hnull. done.
Qed.

Lemma encoded_rows_not_null (d : list T) (c : ValueColumn T) (i : nat) (v : T) :
  wf_column c → values c !! i = Some v → ¬ row_is_null c i →
  encoded_rows d c !! i = Some (get_value_id d v).
Proof.
  unfold wf_column, row_is_null, encoded_rows. intros Hwf Hv Hnull.
  destruct (null_values c) as [nulls|].
  - rewrite lookup_zip_with, Hv. simpl.
    destruct (lookup_lt_is_Some_2 nulls i) as [b Hb].
    { rewrite Hwf. by eapply lookup_lt_Some. }
    rewrite Hb. simpl. by destruct b.
  - by rewrite list_lookup_fmap, Hv.
Qed.

Lemma keep_non_null_lookup (vs : list T) (nulls : list bool) (i : nat) (v : T) :
  vs !! i = Some v → nulls !! i = Some false → v ∈ keep_non_null vs nulls.
Proof.
  revert nulls i. induction vs as [|x vs IH]; intros [|b nulls] [|i] Hv Hb;
    simplify_eq/=; try done.
  - left.
  - destruct b; [|right]; by eapply IH.
Qed.

Lemma non_null_values_lookup (c : ValueColumn T) (i : nat) (v : T) :
  wf_column c → values c !! i = Some v → ¬ row_is_null c i → v ∈ non_null_values c.
Proof.
  unfold wf_column, row_is_null, non_null_values. intros Hwf Hv Hnull.
  destruct (null_values c) as [nulls|].
  - destruct (lookup_lt_is_Some_2 nulls i) as [b Hb].
    { rewrite Hwf. by eapply lookup_lt_Some. }
    destruct b; [done|]. by eapply keep_non_null_lookup.
  - by eapply list_elem_of_lookup_2.
Qed.

Lemma last_cons_default (x y : T) (d : list T) :
  last (x :: d) = Some (List.last (x :: d) y).
Proof.
  revert x. induction d as [|z d IH]; intros x; [done|].
  change (last (x :: z :: d)) with (last (z :: d)).
  change (List.last (x :: z :: d) y) with (List.last (z :: d) y).
  apply IH.
Qed.

Lemma make_stats_spec (d : list T) :
  (is_Some (make_stats d) ↔ d ≠ []) ∧
  (∀ s, make_stats d = Some s →
        head d = Some (stat_min s) ∧ last d = Some (stat_max s)).
Proof.
  destruct d as [|x d]; simpl.
  - split; [|done]. split; [by intros [??]|done].
  - split; [by split; [|eexists]|].
    intros s [= <-]. split; [done|]. apply last_cons_default.
Qed.

End CompressValueColumn.

Section BuildDictionary.
Context {T : Type} `{TotalOrder T}.

(** The dictionary is strictly sorted and holds exactly the values of the
    rows that are not null. *)
Lemma build_dictionary_spec (c : ValueColumn T) :
  wf_column c →
  StronglySorted lt_elem (build_dictionary c) ∧
  (∀ v, v ∈ build_dictionary c ↔ v ∈ non_null_values c).
Proof.
  intros Hwf. unfold build_dictionary, non_null_values, wf_column in *.
  destruct (null_values c) as [nulls|].
  - destruct (unique_spec (sort (remove_null_values nulls (values c)))) as [Hs Hin].
    { apply sort_StronglySorted. }
    split; [done|]. intros v.
    by rewrite Hin, sort_Permutation, remove_null_values_Permutation.
  - destruct (unique_spec (sort (values c))) as [Hs Hin].
    { apply sort_StronglySorted. }
    split; [done|]. intros v. by rewrite Hin, sort_Permutation.
Qed.

End BuildDictionary.

(** What holds of the dictionary and of the attribute vector whatever the
    element type. *)
Section UniqueFacts.
Context {T : Type} `{Element T}.

Lemma unique_from_cons (kept : T) (v : list T) :
  ∃ l, unique_from kept v = kept :: l ∧ l `sublist_of` v.
Proof.
  revert kept. induction v as [|x v IH]; intros kept; simpl.
  - by exists [].
  - destruct (equal kept x).
    + destruct (IH kept) as (l & -> & Hl). exists l. split; [done|].
      by apply sublist_cons.
    + destruct (IH x) as (l & -> & Hl). exists (x :: l). split; [done|].
      by apply sublist_skip.
Qed.

Lemma unique_from_sublist (kept : T) (v : list T) :
  unique_from kept v `sublist_of` kept :: v.
Proof.
  destruct (unique_from_cons kept v) as (l & -> & Hl). by apply sublist_skip.
Qed.

Lemma unique_sublist (v : list T) : unique v `sublist_of` v.
Proof. destruct v as [|x v]; [done|]. apply unique_from_sublist. Qed.

Lemma unique_from_not_nil (kept : T) (v : list T) : unique_from kept v ≠ [].
Proof.
  revert kept. induction v as [|x v IH]; intros kept; simpl; [done|].
  destruct (equal kept x); [apply IH|done].
Qed.

Lemma unique_nil (v : list T) : unique v = [] ↔ v = [].
Proof.
  destruct v as [|x v]; simpl; [done|]. split; [|done].
  intros Hnil. by apply unique_from_not_nil in Hnil.
Qed.

(** Whatever the element type, the dictionary is made of values of rows
    that are not null, each taken at most as often as it occurs. *)
Lemma build_dictionary_submseteq (c : ValueColumn T) :
  wf_column c → build_dictionary c ⊆+ non_null_values c.
Proof.
  intros Hwf. unfold build_dictionary, non_null_values, wf_column in *.
  destruct (null_values c) as [nulls|].
  - etrans; [apply sublist_submseteq, unique_sublist|].
    apply Permutation_submseteq. unfold sort.
    by rewrite merge_sort_Permutation, remove_null_values_Permutation.
  - etrans; [apply sublist_submseteq, unique_sublist|].
    apply Permutation_submseteq. unfold sort. by rewrite merge_sort_Permutation.
Qed.

Lemma build_dictionary_nil (c : ValueColumn T) :
  wf_column c → build_dictionary c = [] ↔ non_null_values c = [].
Proof.
  intros Hwf. unfold build_dictionary, non_null_values, wf_column in *.
  rewrite unique_nil. unfold sort.
  destruct (null_values c) as [nulls|].
  - rewrite <- !Permutation_nil_r.
    by rewrite merge_sort_Permutation, remove_null_values_Permutation.
  - rewrite <- !Permutation_nil_r. by rewrite merge_sort_Permutation.
Qed.

(** A property of the ids that holds for the null id and for every id
    [get_value_id] computes holds for all entries once the loops are
    through. *)
Lemma fill_nullable_Forall (P : ValueID → Prop) (d vs : list T) (nulls : list bool)
    (index : N) (av av' : FittedAttributeVector) :
  P NULL_VALUE_ID → (∀ v, P (get_value_id d v)) →
  Forall P (attributes av) →
  fill_nullable d vs nulls index av = Ok av' →
  Forall P (attributes av').
Proof.
  intros Hnull Hid. revert nulls index av.
  induction vs as [|v vs IH]; intros nulls index av Hav Hfill; simpl in Hfill.
  - by injection Hfill as <-.
  - assert (∀ x av1, P x → av_set index x av = Ok av1 → Forall P (attributes av1)) as Hset.
    { intros x av1 Hx. unfold av_set. case_decide; [|done].
      intros [= <-]. simpl. by apply Forall_insert. }
    destruct nulls as [|[] nulls].
    + destruct (av_set index (get_value_id d v) av) as [av1|] eqn:Hs; [|done].
      simpl in Hfill. eapply IH; [|done]. exact (Hset _ _ (Hid v) Hs).
    + destruct (av_set index NULL_VALUE_ID av) as [av1|] eqn:Hs; [|done].
      simpl in Hfill. eapply IH; [|done]. exact (Hset _ _ Hnull Hs).
    + destruct (av_set index (get_value_id d v) av) as [av1|] eqn:Hs; [|done].
      simpl in Hfill. eapply IH; [|done]. exact (Hset _ _ (Hid v) Hs).
Qed.

Lemma fill_not_nullable_Forall (P : ValueID → Prop) (d vs : list T)
    (index : N) (av av' : FittedAttributeVector) :
  (∀ v, P (get_value_id d v)) →
  Forall P (attributes av) →
  fill_not_nullable d vs index av = Ok av' →
  Forall P (attributes av').
Proof.
  intros Hid. revert index av.
  induction vs as [|v vs IH]; intros index av Hav Hfill; simpl in Hfill.
  - by injection Hfill as <-.
  - destruct (av_set index (get_value_id d v) av) as [av1|] eqn:Hs; [|done].
    simpl in Hfill. eapply IH; [|done].
    unfold av_set in Hs. case_decide; [|done]. injection Hs as <-. simpl.
    by apply Forall_insert.
Qed.

Lemma compress_value_column_entries (c : ValueColumn T) :
  ∃ av,
    compress_value_column c =
      Ok (mkDictionaryColumn (build_dictionary c) av, make_stats (build_dictionary c)) ∧
    av_size av = length (values c) ∧
    Forall (λ id, id ≤ N.of_nat (length (build_dictionary c)) ∧ id < 2 ^ (8 * width av))
      (attributes av).
Proof.
  destruct (compress_value_column_total c) as (av & Hc & Hw & Hs).
  exists av. split; [done|]. split; [done|].
  unfold compress_value_column in Hc.
  set (d := build_dictionary c) in *.
  set (av0 := _create_fitted_attribute_vector _ _) in *.
  assert (Forall (λ id, id ≤ N.of_nat (length d) ∧ id < 2 ^ (8 * width av0))
            (attributes av0)) as Hav0.
  { unfold av0, _create_fitted_attribute_vector.
    repeat case_decide; simpl; apply Forall_replicate; split; lia. }
  assert (∀ v, get_value_id d v ≤ N.of_nat (length d) ∧
               get_value_id d v < 2 ^ (8 * width av0)) as Hid.
  { intros v. split; [apply get_value_id_le|apply get_value_id_fits]. }
  rewrite Hw. fold av0.
  destruct (null_values c) as [nulls|].
  - destruct (fill_nullable d (values c) nulls 0 av0) as [av1|] eqn:Hfill; [|done].
    simpl in Hc. injection Hc as <-.
    eapply fill_nullable_Forall; [|done|done|done].
    split; [unfold NULL_VALUE_ID; lia|apply NULL_VALUE_ID_fits].
  - destruct (fill_not_nullable d (values c) 0 av0) as [av1|] eqn:Hfill; [|done].
    simpl in Hc. injection Hc as <-.
    by eapply fill_not_nullable_Forall.
Qed.

End UniqueFacts.

(** The cast to the value column of its own element type succeeds. *)
Lemma as_ValueColumn_same (data_type : DataType) (c : ValueColumn (type_of data_type)) :
  as_ValueColumn data_type (ValueColumnOf data_type c) = Some c.
Proof. by destruct data_type. Qed.

Lemma compress_column_value (data_type : DataType) (c : ValueColumn (type_of data_type)) :
  compress_column data_type (ValueColumnOf data_type c) =
  do r <- compress_value_column c;
  Ok (DictionaryColumnOf data_type r.1, StatisticsOf data_type <$> r.2).
Proof.
  unfold compress_column, ColumnCompressor_compress_column.
  by rewrite as_ValueColumn_same.
Qed.

Lemma compress_column_dictionary (data_type data_type' : DataType)
    (c : DictionaryColumn (type_of data_type')) :
  compress_column data_type (DictionaryColumnOf data_type' c) =
  Err (AssertionFailure "Column is either already compressed or type mismatches.").
Proof. done. Qed.

(** The only exception [compress_column] raises is that of its cast. *)
Lemma compress_column_Err (data_type : DataType) (column : BaseColumn) (e : Error) :
  compress_column data_type column = Err e →
  e = AssertionFailure "Column is either already compressed or type mismatches.".
Proof.
  unfold compress_column, ColumnCompressor_compress_column.
  destruct (as_ValueColumn data_type column) as [c|]; [|by intros [= <-]].
  destruct (compress_value_column_total c) as (av & -> & _). done.
Qed.

(** ** The element types that are totally ordered *)

#[export] Instance Z_TotalOrder : TotalOrder Z.
Proof.
  split; simpl.
  - intros a. apply Z.ltb_irrefl.
  - intros a b c ?%Z.ltb_lt ?%Z.ltb_lt. apply Z.ltb_lt. lia.
  - intros a b ?%Z.ltb_ge ?%Z.ltb_ge. lia.
  - intros a b. apply Z.eqb_eq.
Qed.

Lemma string_compare_refl (s : string) : String.compare s s = Eq.
Proof.
  induction s as [|a s IH]; simpl; [done|].
  unfold Ascii.compare. by rewrite N.compare_refl.
Qed.

Lemma string_ltb_leb (a b : string) :
  String.ltb a b = true ↔ String.leb a b = true ∧ a ≠ b.
Proof.
  unfold String.ltb, String.leb. split.
  - destruct (String.compare a b) eqn:Hc; try done.
    intros _. split; [done|]. intros ->. by rewrite string_compare_refl in Hc.
  - intros [Hle Hne]. destruct (String.compare a b) eqn:Hc; try done.
    by apply String.compare_eq_iff in Hc.
Qed.

#[export] Instance string_TotalOrder : TotalOrder string.
Proof.
  split; simpl.
  - intros a. unfold String.ltb. by rewrite string_compare_refl.
  - intros a b c [Hab Hne]%string_ltb_leb [Hbc Hne']%string_ltb_leb.
    apply string_ltb_leb.
    assert (String.le a b) as Hab' by (unfold String.le; by rewrite Hab).
    assert (String.le b c) as Hbc' by (unfold String.le; by rewrite Hbc).
    split.
    + pose proof (transitivity Hab' Hbc') as Hac. unfold String.le in Hac.
      by apply Is_true_true.
    + intros ->. apply Hne. by apply (anti_symm String.le).
  - intros a b. unfold String.ltb. rewrite (String.compare_antisym b a).
    destruct (String.compare a b) eqn:Hc; try done.
    intros _ _. by apply String.compare_eq_iff.
  - intros a b. apply String.eqb_eq.
Qed.

(** The element type of the integer and string data types is totally
    ordered. *)
Lemma type_of_TotalOrder (data_type : DataType) :
  data_type ∈ [DataType.Int; DataType.Long; DataType.String] →
  TotalOrder (type_of data_type).
Proof.
  intros Hin. destruct data_type; try apply _; exfalso.
  all: repeat (apply elem_of_cons in Hin as [?|Hin]; [done|]).
  all: by apply elem_of_nil in Hin.
Qed.

(** The floating-point types are not: NaN is neither below, above nor equal
    to any value. *)
Lemma float_not_TotalOrder : ¬ TotalOrder spec_float.
Proof.
  intros Hord.
  pose proof (less_total (T:=spec_float) S754_nan (S754_zero false) eq_refl eq_refl).
  done.
Qed.

(** ** More facts about the dictionary *)

Section DictionaryFacts.
Context {T : Type} `{TotalOrder T}.

Lemma keep_non_null_elem_of (vs : list T) (nulls : list bool) (x : T) :
  x ∈ keep_non_null vs nulls → x ∈ vs.
Proof.
  revert nulls. induction vs as [|v vs IH]; intros [|b nulls]; simpl; try done.
  - by intros ?%elem_of_nil.
  - destruct b; [right; by eapply IH|].
    intros [->|?]%elem_of_cons; [left|right; by eapply IH].
Qed.

Lemma build_dictionary_length (c : ValueColumn T) :
  wf_column c → (length (build_dictionary c) ≤ length (values c))%nat.
Proof.
  intros Hwf. destruct (build_dictionary_spec c Hwf) as [Hs Hin].
  apply submseteq_length, NoDup_submseteq; [by apply StronglySorted_lt_NoDup|].
  intros x Hx%Hin. unfold non_null_values in Hx.
  destruct (null_values c); [by eapply keep_non_null_elem_of|done].
Qed.



End DictionaryFacts.

(** ** The order of every element type *)

(** A totally ordered element type is weakly ordered, and all of its values
    equal themselves. *)
#[export] Instance TotalOrder_WeakOrder {T : Type} `{TotalOrder T} : WeakOrder T.
Proof.
  split.
  - apply less_irrefl.
  - apply less_trans.
  - intros a b _ _ Hab Hba. apply equal_spec. by apply less_total.
  - by intros a b c ->%equal_spec.
  - by intros a b c ->%equal_spec.
Qed.

Lemma TotalOrder_comparable {T : Type} `{TotalOrder T} (v : T) : comparable v.
Proof. by apply equal_spec. Qed.

(** The comparison of two floating-point values, case by case. *)
Ltac float_order :=
  unfold comparable, less, equal, float_Element, SFltb, SFeqb, SFcompare in *;
  repeat match goal with
  | |- context [match ?s with true => _ | false => _ end] => is_var s; destruct s
  | H : context [match ?s with true => _ | false => _ end] |- _ => is_var s; destruct s
  end;
  change (Pos.compare_cont Eq) with Pos.compare in *;
  repeat match goal with
  | |- context [(?a ?= ?b)%Z] => destruct (Z.compare_spec a b)
  | H : context [(?a ?= ?b)%Z] |- _ => destruct (Z.compare_spec a b)
  | |- context [(?a ?= ?b)%positive] => destruct (Pos.compare_spec a b)
  | H : context [(?a ?= ?b)%positive] |- _ => destruct (Pos.compare_spec a b)
  end;
  simpl in *; try done; try lia; try (exfalso; lia).

(** The floating-point values are weakly ordered: [+0.0] and [-0.0] are
    equal without being the same, and NaN is the one value that does not
    equal itself. *)
#[export] Instance float_WeakOrder : WeakOrder spec_float.
Proof.
  split.
  - intros a. destruct a; float_order.
  - intros a b c Hab Hbc. destruct a, b, c; float_order.
  - intros a b Ha Hb Hab Hba. destruct a, b; float_order.
  - intros a b c Hab. destruct a, b, c; float_order.
  - intros a b c Hab. destruct a, b, c; float_order.
Qed.

Lemma float_comparable (v : spec_float) : comparable v ↔ v ≠ S754_nan.
Proof. destruct v; split; intros; float_order. Qed.

(** NaN is below nothing, nothing is below NaN, and nothing equals NaN. *)
Lemma NaN_unordered (x : spec_float) :
  less x S754_nan = false ∧ less S754_nan x = false ∧ equal x S754_nan = false.
Proof. by destruct x. Qed.

#[export] Instance type_of_WeakOrder (data_type : DataType) : WeakOrder (type_of data_type).
Proof. destruct data_type; apply _. Qed.

Section Covers.
Context {T : Type} `{Element T}.

Lemma keep_non_null_length (vs : list T) (nulls : list bool) :
  (length (keep_non_null vs nulls) ≤ length vs)%nat.
Proof.
  revert nulls. induction vs as [|v vs IH]; intros [|[] nulls]; simpl; try lia.
  - specialize (IH nulls). lia.
  - specialize (IH nulls). lia.
Qed.

Lemma build_dictionary_rows (c : ValueColumn T) :
  wf_column c → (length (build_dictionary c) ≤ length (values c))%nat.
Proof.
  intros Hwf. etrans; [apply submseteq_length, build_dictionary_submseteq, Hwf|].
  unfold non_null_values. destruct (null_values c); [apply keep_non_null_length|done].
Qed.

Lemma unique_from_head (kept : T) (v : list T) : kept ∈ unique_from kept v.
Proof. destruct (unique_from_cons kept v) as (l & -> & _). left. Qed.

(** [std::unique] drops a value only next to a kept one that equals it. *)
Lemma unique_from_covers (kept : T) (v : list T) (x : T) :
  x ∈ kept :: v → comparable x → ∃ d, d ∈ unique_from kept v ∧ equal d x = true.
Proof.
  revert kept. induction v as [|y v IH]; intros kept Hx Hc.
  - apply list_elem_of_singleton in Hx as ->. exists kept. split; [left|done].
  - simpl. apply elem_of_cons in Hx as [->|Hx].
    + exists kept. split; [|done].
      destruct (equal kept y); [apply unique_from_head|left].
    + destruct (equal kept y) eqn:Heq.
      * apply elem_of_cons in Hx as [->|Hx].
        -- exists kept. split; [apply unique_from_head|done].
        -- apply IH; [by right|done].
      * destruct (IH y Hx Hc) as (d & Hd & Hdx). exists d. split; [by right|done].
Qed.

Lemma unique_covers (v : list T) (x : T) :
  x ∈ v → comparable x → ∃ d, d ∈ unique v ∧ equal d x = true.
Proof.
  destruct v as [|y v]; [by intros ?%elem_of_nil|]. apply unique_from_covers.
Qed.

(** It drops no value that nothing equals. *)
Lemma unique_from_filter (P : T → Prop) `{!∀ x, Decision (P x)} (kept : T) (v : list T) :
  (∀ x y, P y → equal x y = false) →
  filter P (unique_from kept v) = filter P (kept :: v).
Proof.
  intros HP. revert kept. induction v as [|y v IH]; intros kept; simpl; [done|].
  destruct (equal kept y) eqn:Heq.
  - rewrite IH. rewrite !filter_cons.
    destruct (decide (P y)) as [Hy|Hy]; [|done].
    by rewrite (HP kept y Hy) in Heq.
  - rewrite (filter_cons P kept (unique_from y v)), IH.
    by rewrite (filter_cons P kept (y :: v)).
Qed.

Lemma unique_filter (P : T → Prop) `{!∀ x, Decision (P x)} (v : list T) :
  (∀ x y, P y → equal x y = false) → filter P (unique v) = filter P v.
Proof. intros HP. destruct v as [|y v]; [done|]. by apply unique_from_filter. Qed.

(** The search for a value that no element is below stops where it
    starts. *)
Lemma lower_bound_loop_none_less (v : list T) (value : T) (first len : nat) :
  (∀ x, x ∈ v → less x value = false) →
  lower_bound_loop v value first len = first.
Proof.
  intros Hv. funelim (lower_bound_loop v value first len).
  - done.
  - done.
  - apply list_elem_of_lookup_2 in Heq0. by rewrite (Hv _ Heq0) in Heq.
  - by apply H0.
Qed.

(** The dictionary is [std::unique] of [std::sort] of a vector that holds
    the values of the rows that are not null. *)
Lemma build_dictionary_unique_sort (c : ValueColumn T) :
  wf_column c →
  ∃ scratch, scratch ≡ₚ non_null_values c ∧ build_dictionary c = unique (sort scratch).
Proof.
  intros Hwf. unfold build_dictionary, non_null_values, wf_column in *.
  destruct (null_values c) as [nulls|].
  - eexists. split; [|done]. by apply remove_null_values_Permutation.
  - by eexists.
Qed.

Lemma build_dictionary_covers (c : ValueColumn T) (v : T) :
  wf_column c → v ∈ non_null_values c → comparable v →
  ∃ d, d ∈ build_dictionary c ∧ equal d v = true.
Proof.
  intros Hwf Hv Hc. destruct (build_dictionary_unique_sort c Hwf) as (s & Hs & ->).
  apply unique_covers; [|done]. unfold sort. by rewrite merge_sort_Permutation, Hs.
Qed.

Lemma build_dictionary_filter (P : T → Prop) `{!∀ x, Decision (P x)} (c : ValueColumn T) :
  wf_column c → (∀ x y, P y → equal x y = false) →
  filter P (build_dictionary c) ≡ₚ filter P (non_null_values c).
Proof.
  intros Hwf HP. destruct (build_dictionary_unique_sort c Hwf) as (s & Hs & ->).
  rewrite unique_filter by done. unfold sort. by rewrite merge_sort_Permutation, Hs.
Qed.

End Covers.

Section WeakOrderFacts.
Context {T : Type} `{WeakOrder T}.

Lemma weak_asym (a b : T) : less a b = true → less b a = false.
Proof.
  intros Hab. destruct (less b a) eqn:Hba; [|done].
  rewrite <- (weak_irrefl a). symmetry. by apply weak_trans with b.
Qed.

Lemma equal_not_less (a b : T) : equal a b = true → less a b = false ∧ less b a = false.
Proof.
  intros Heq. split.
  - rewrite (weak_equal_l a b b Heq). apply weak_irrefl.
  - rewrite (weak_equal_r a b b Heq). apply weak_irrefl.
Qed.

#[local] Instance not_greater_weak_total : Total (not_greater (T:=T)).
Proof.
  intros a b. unfold not_greater.
  destruct (less b a) eqn:Hba; [right|by left]. by apply weak_asym.
Qed.

Lemma not_greater_comparable_trans (a b c : T) :
  comparable a → comparable b → not_greater a b → not_greater b c → not_greater a c.
Proof.
  unfold not_greater. intros Ha Hb Hba Hcb.
  destruct (less c a) eqn:Hca; [|done].
  destruct (less a b) eqn:Hab.
  - rewrite <- Hcb. symmetry. by apply weak_trans with a.
  - rewrite <- Hcb, <- Hca. symmetry. apply weak_equal_r. by apply weak_total.
Qed.

Lemma lt_not_greater_comparable (a b c : T) :
  comparable a → comparable c →
  less a b = true → not_greater b c → not_greater a c → less a c = true.
Proof.
  unfold not_greater. intros Ha Hc Hab Hcb Hca.
  destruct (less a c) eqn:Hac; [done|].
  rewrite <- Hcb, <- Hab. apply weak_equal_l. by apply weak_total.
Qed.

(** Whatever sorted permutation [std::sort] leaves of values that equal
    themselves, no element of it is less than an earlier one. *)
Lemma Sorted_comparable_StronglySorted (l : list T) :
  Forall comparable l → Sorted not_greater l → StronglySorted not_greater l.
Proof.
  intros Hc Hs. induction Hs as [|a l Hs IH Hhd]; [constructor|].
  apply Forall_cons in Hc as [Ha Hl]. specialize (IH Hl).
  constructor; [done|].
  destruct Hhd as [|b l Hab]; [constructor|].
  apply Forall_cons in Hl as [Hb Hl].
  apply StronglySorted_inv in IH as [_ Hbl].
  constructor; [done|].
  eapply Forall_impl; [exact Hbl|]. intros x Hbx.
  by apply not_greater_comparable_trans with b.
Qed.

Lemma sort_comparable_StronglySorted (v : list T) :
  Forall comparable v → StronglySorted not_greater (sort v).
Proof.
  intros Hv. apply Sorted_comparable_StronglySorted.
  - unfold sort. by rewrite merge_sort_Permutation.
  - apply Sorted_merge_sort. apply _.
Qed.

Lemma unique_from_ascending (kept : T) (v : list T) :
  Forall comparable (kept :: v) → StronglySorted not_greater (kept :: v) →
  StronglySorted lt_elem (unique_from kept v).
Proof.
  revert kept. induction v as [|x v IH]; intros kept Hc Hs; simpl.
  - repeat constructor.
  - apply Forall_cons in Hc as [Hk Hc]. apply Forall_cons in Hc as [Hx Hv].
    apply StronglySorted_inv in Hs as [Hs Hkv].
    apply Forall_cons in Hkv as [Hkx Hkv].
    apply StronglySorted_inv in Hs as [Hs' Hxv].
    destruct (equal kept x) eqn:Heq.
    + apply IH; [by constructor|by constructor].
    + assert (less kept x = true) as Hlt.
      { destruct (less kept x) eqn:Hlt; [done|].
        rewrite <- Heq. by apply weak_total. }
      constructor.
      * apply IH; [by constructor|by constructor].
      * apply Forall_forall. intros y Hy.
        apply (elem_of_sublist _ (x :: v)) in Hy; [|apply unique_from_sublist].
        apply elem_of_cons in Hy as [->|Hy]; [done|].
        eapply Forall_forall in Hxv, Hkv, Hv; [|done..].
        by apply lt_not_greater_comparable with x.
Qed.

Lemma unique_ascending (v : list T) :
  Forall comparable v → StronglySorted not_greater v → StronglySorted lt_elem (unique v).
Proof.
  destruct v as [|x v]; [constructor|]. apply unique_from_ascending.
Qed.

(** When no row that is not null holds a value that does not equal itself,
    the dictionary is strictly ascending. *)
Lemma build_dictionary_ascending (c : ValueColumn T) :
  wf_column c → Forall comparable (non_null_values c) →
  StronglySorted lt_elem (build_dictionary c).
Proof.
  intros Hwf Hc. destruct (build_dictionary_unique_sort c Hwf) as (s & Hs & ->).
  assert (Forall comparable s) as Hcs by by rewrite Hs.
  apply unique_ascending.
  - unfold sort. by rewrite merge_sort_Permutation.
  - by apply sort_comparable_StronglySorted.
Qed.

Lemma ascending_lookup (d : list T) (i j : nat) (x y : T) :
  StronglySorted lt_elem d → d !! i = Some x → d !! j = Some y →
  (i < j)%nat → less x y = true.
Proof.
  intros Hs. revert i j. induction Hs as [|a d Hs IH Ha]; intros i j Hi Hj Hij.
  - done.
  - destruct j as [|j]; [lia|]. destruct i as [|i]; simpl in *.
    + injection Hi as ->. eapply Forall_forall in Ha; [done|].
      by eapply list_elem_of_lookup_2.
    + apply (IH i j); [done..|lia].
Qed.

(** No two entries of an ascending dictionary are equal by [operator==]. *)
Lemma ascending_distinct (d : list T) (i j : nat) (x y : T) :
  StronglySorted lt_elem d → d !! i = Some x → d !! j = Some y →
  equal x y = true → i = j.
Proof.
  intros Hs Hi Hj Heq. destruct (equal_not_less x y Heq) as [Hxy Hyx].
  destruct (Nat.lt_trichotomy i j) as [Hlt|[->|Hgt]]; [|done|].
  - by rewrite (ascending_lookup d i j x y Hs Hi Hj Hlt) in Hxy.
  - by rewrite (ascending_lookup d j i y x Hs Hj Hi Hgt) in Hyx.
Qed.

Lemma ascending_NoDup (d : list T) : StronglySorted lt_elem d → NoDup d.
Proof.
  induction 1 as [|a d Hs IH Ha]; constructor; [|done].
  intros Hin. eapply Forall_forall in Ha; [|done].
  unfold lt_elem in Ha. by rewrite weak_irrefl in Ha.
Qed.

Lemma lower_bound_ascending (d : list T) (value : T) :
  StronglySorted lt_elem d →
  (∀ i x, (i < lower_bound d value)%nat → d !! i = Some x → less x value = true) ∧
  (∀ i x, (lower_bound d value ≤ i)%nat → d !! i = Some x → less x value = false).
Proof.
  intros Hs. apply (lower_bound_loop_partition d value 0 (length d)).
  - lia.
  - intros i j x y Hij Hx Hy Hyv.
    destruct (decide (i = j)) as [->|Hne]; [congruence|].
    apply weak_trans with y; [|done].
    apply (ascending_lookup d i j); [done..|lia].
  - intros i x Hi. lia.
  - intros i x Hi Hx. apply lookup_lt_Some in Hx. simpl in Hi. lia.
Qed.

(** In an ascending dictionary the search stops at the entry that equals
    the value, when there is one. *)
Lemma lower_bound_equal (d : list T) (value x : T) (k : nat) :
  StronglySorted lt_elem d → d !! k = Some x → equal x value = true →
  lower_bound d value = k.
Proof.
  intros Hs Hk Heq.
  destruct (lower_bound_ascending d value Hs) as [Hlo Hhi].
  destruct (equal_not_less x value Heq) as [Hxv Hvx].
  destruct (Nat.lt_trichotomy (lower_bound d value) k) as [Hlt|[->|Hgt]]; [|done|].
  - destruct (lookup_lt_is_Some_2 d (lower_bound d value)) as [y Hy].
    { apply lookup_lt_Some in Hk. lia. }
    pose proof (ascending_lookup d _ _ _ _ Hs Hy Hk Hlt) as Hyx.
    rewrite (weak_equal_r x value y Heq) in Hyx.
    by rewrite (Hhi _ y (Nat.le_refl _) Hy) in Hyx.
  - by rewrite (Hlo k x Hgt Hk) in Hxv.
Qed.

Lemma count_below (P : T → Prop) `{!∀ x, Decision (P x)} (d : list T) (r : nat) :
  (r ≤ length d)%nat →
  (∀ i x, (i < r)%nat → d !! i = Some x → P x) →
  (∀ i x, (r ≤ i)%nat → d !! i = Some x → ¬ P x) →
  length (filter P d) = r.
Proof.
  revert r. induction d as [|a d IH]; intros r Hr Hlo Hhi; simpl in *.
  - lia.
  - destruct r as [|r].
    + rewrite filter_cons_False by (by apply (Hhi 0%nat)).
      apply IH; [lia|intros; lia|].
      intros i x _ Hx. apply (Hhi (S i)); [lia|done].
    + rewrite filter_cons_True by (apply (Hlo 0%nat); [lia|done]).
      simpl. f_equal. apply IH; [lia| |].
      * intros i x Hi Hx. apply (Hlo (S i)); [lia|done].
      * intros i x Hi Hx. apply (Hhi (S i)); [lia|done].
Qed.

Lemma lower_bound_count (d : list T) (value : T) :
  StronglySorted lt_elem d →
  lower_bound d value = length (filter (λ x, less x value = true) d).
Proof.
  intros Hs. destruct (lower_bound_ascending d value Hs) as [Hlo Hhi].
  symmetry. apply count_below.
  - apply lower_bound_le_length.
  - done.
  - intros i x Hi Hx. apply not_true_iff_false. by eapply Hhi.
Qed.

Lemma count_less_Forall2 (d1 d2 : list T) (value : T) :
  Forall2 (λ a b, equal a b = true) d1 d2 →
  length (filter (λ x, less x value = true) d1) =
  length (filter (λ x, less x value = true) d2).
Proof.
  induction 1 as [|a b d1 d2 Hab _ IH]; [done|].
  rewrite !filter_cons, (weak_equal_l a b value Hab).
  destruct (decide (less b value = true)); simpl; by rewrite IH.
Qed.

(** Two ascending lists of values that equal themselves, each holding an
    equal of every element of the other, are equal entry by entry. *)
Lemma ascending_Forall2 (d1 d2 : list T) :
  Forall comparable d1 → Forall comparable d2 →
  StronglySorted lt_elem d1 → StronglySorted lt_elem d2 →
  (∀ x, x ∈ d1 → ∃ y, y ∈ d2 ∧ equal y x = true) →
  (∀ y, y ∈ d2 → ∃ x, x ∈ d1 ∧ equal x y = true) →
  Forall2 (λ a b, equal a b = true) d1 d2.
Proof.
  revert d2. induction d1 as [|a d1 IH]; intros [|b d2] Hc1 Hc2 Hs1 Hs2 H12 H21.
  - constructor.
  - destruct (H21 b) as (x & Hx & _); [left|]. by apply elem_of_nil in Hx.
  - destruct (H12 a) as (y & Hy & _); [left|]. by apply elem_of_nil in Hy.
  - apply Forall_cons in Hc1 as [Ha Hc1]. apply Forall_cons in Hc2 as [Hb Hc2].
    apply StronglySorted_inv in Hs1 as [Hs1 Ha1].
    apply StronglySorted_inv in Hs2 as [Hs2 Hb2].
    assert (equal a b = true) as Hab.
    { apply weak_total; [done..| |].
      - destruct (less a b) eqn:Hlt; [|done].
        destruct (H21 b) as (x & Hx & Hxb); [left|].
        apply elem_of_cons in Hx as [->|Hx].
        + by rewrite (proj1 (equal_not_less a b Hxb)) in Hlt.
        + eapply Forall_forall in Ha1; [|done]. unfold lt_elem in Ha1.
          destruct (H12 a) as (y & Hy & Hya); [left|].
          apply elem_of_cons in Hy as [->|Hy].
          * by rewrite (proj2 (equal_not_less b a Hya)) in Hlt.
          * eapply Forall_forall in Hb2; [|done]. unfold lt_elem in Hb2.
            rewrite (weak_equal_r y a b Hya) in Hb2.
            by rewrite (weak_asym a b Hlt) in Hb2.
      - destruct (less b a) eqn:Hlt; [|done].
        destruct (H12 a) as (y & Hy & Hya); [left|].
        apply elem_of_cons in Hy as [->|Hy].
        + by rewrite (proj1 (equal_not_less b a Hya)) in Hlt.
        + eapply Forall_forall in Hb2; [|done]. unfold lt_elem in Hb2.
          destruct (H21 b) as (x & Hx & Hxb); [left|].
          apply elem_of_cons in Hx as [->|Hx].
          * by rewrite (proj2 (equal_not_less a b Hxb)) in Hlt.
          * eapply Forall_forall in Ha1; [|done]. unfold lt_elem in Ha1.
            rewrite (weak_equal_r x b a Hxb) in Ha1.
            by rewrite (weak_asym b a Hlt) in Ha1. }
    constructor; [done|]. apply IH; [done..| |].
    + intros x Hx. destruct (H12 x) as (y & Hy & Hyx); [by right|].
      apply elem_of_cons in Hy as [->|Hy]; [|by exists y].
      eapply Forall_forall in Ha1; [|done]. unfold lt_elem in Ha1.
      rewrite (weak_equal_l a b x Hab) in Ha1.
      by rewrite (proj1 (equal_not_less b x Hyx)) in Ha1.
    + intros y Hy. destruct (H21 y) as (x & Hx & Hxy); [by right|].
      apply elem_of_cons in Hx as [->|Hx]; [|by exists x].
      eapply Forall_forall in Hb2; [|done]. unfold lt_elem in Hb2.
      rewrite <- (weak_equal_l a b y Hab) in Hb2.
      by rewrite (proj1 (equal_not_less a y Hxy)) in Hb2.
Qed.

(** Whichever sorted permutation [std::sort] leaves of values that equal
    themselves, the dictionary is that of [sort] entry by entry up to
    [operator==], and every value is found at the same position. *)
Lemma sort_determined_up_to_equal (v sorted : list T) (value : T) :
  Forall comparable v → sorted ≡ₚ v → Sorted not_greater sorted →
  Forall2 (λ a b, equal a b = true) (unique sorted) (unique (sort v)) ∧
  lower_bound (unique sorted) value = lower_bound (unique (sort v)) value.
Proof.
  intros Hv Hperm Hsorted.
  assert (Forall comparable sorted) as Hcs by by rewrite Hperm.
  assert (Forall comparable (sort v)) as Hcv
    by (unfold sort; by rewrite merge_sort_Permutation).
  assert (StronglySorted lt_elem (unique sorted)) as Hs1.
  { apply unique_ascending; [done|]. by apply Sorted_comparable_StronglySorted. }
  assert (StronglySorted lt_elem (unique (sort v))) as Hs2.
  { apply unique_ascending; [done|]. by apply sort_comparable_StronglySorted. }
  assert (∀ l, Forall comparable l → Forall comparable (unique l)) as Hcu.
  { intros l Hl. apply Forall_forall. intros x Hx.
    eapply Forall_forall in Hl; [done|].
    eapply elem_of_sublist; [done|apply unique_sublist]. }
  assert (Forall2 (λ a b, equal a b = true) (unique sorted) (unique (sort v))) as Hall.
  { apply ascending_Forall2; [by apply Hcu|by apply Hcu|done|done| |].
    - intros x Hx. apply (elem_of_sublist _ sorted) in Hx; [|apply unique_sublist].
      apply unique_covers; [|by eapply Forall_forall in Hcs].
      unfold sort. by rewrite merge_sort_Permutation, <- Hperm.
    - intros y Hy. apply (elem_of_sublist _ (sort v)) in Hy; [|apply unique_sublist].
      apply unique_covers; [|by eapply Forall_forall in Hcv].
      revert Hy. unfold sort. by rewrite merge_sort_Permutation, <- Hperm. }
  split; [done|].
  rewrite !lower_bound_count by done. by apply count_less_Forall2.
Qed.

(** What the compressor writes for a row that is not null, when no such
    row holds a value that does not equal itself: the position of the
    dictionary entry that equals the value of the row, which is the number of
    entries below that value. *)
Lemma build_dictionary_entry (c : ValueColumn T) (v : T) :
  wf_column c → Forall comparable (non_null_values c) → v ∈ non_null_values c →
  ∃ entry,
    build_dictionary c !! lower_bound (build_dictionary c) v = Some entry ∧
    equal entry v = true ∧
    lower_bound (build_dictionary c) v =
      length (filter (λ x, less x v = true) (build_dictionary c)).
Proof.
  intros Hwf Hc Hv.
  pose proof (build_dictionary_ascending c Hwf Hc) as Hs.
  assert (comparable v) as Hcv by by eapply Forall_forall in Hc.
  destruct (build_dictionary_covers c v Hwf Hv Hcv) as (entry & Hin & Heq).
  apply list_elem_of_lookup in Hin as [k Hk].
  exists entry. rewrite (lower_bound_equal _ v entry k Hs Hk Heq).
  split; [done|]. split; [done|].
  by rewrite <- (lower_bound_equal _ v entry k Hs Hk Heq), lower_bound_count.
Qed.

End WeakOrderFacts.

Section SortDetermined.
Context {T : Type} `{TotalOrder T}.

#[local] Instance not_greater_antisymm : AntiSymm (=) (not_greater (T:=T)).
Proof. intros a b Hab Hba. by apply less_total. Qed.

(** On a totally ordered element type the contract of [std::sort] leaves
    one result, and [sort] returns it. *)
Lemma sort_determined (v sorted : list T) :
  sorted ≡ₚ v → StronglySorted not_greater sorted → sorted = sort v.
Proof.
  intros Hperm Hs. apply (StronglySorted_unique not_greater); [done| |].
  - apply sort_StronglySorted.
  - by rewrite Hperm, sort_Permutation.
Qed.

End SortDetermined.

(** ** Properties of [compress_column] *)

(** C1, as the code has it: a null row holds [NULL_VALUE_ID] and a row that
    is not null holds [lower_bound(dictionary, value)] itself, with no
    offset of one.  When no row that is not null holds a NaN,
    [dictionary[av[i]]] equals the value of the row by [operator==], and is
    that very value where the element type is totally ordered. *)
Theorem attribute_vector_encodes_rows (data_type : DataType)
    (c : ValueColumn (type_of data_type)) :
  wf_column c →
  N.of_nat (length (values c)) < UINT32_MODULUS →
  ∃ dc stats,
    compress_column data_type (ValueColumnOf data_type c)
      = Ok (DictionaryColumnOf data_type dc, stats) ∧
    ∀ i v, values c !! i = Some v →
      (row_is_null c i → av_get (attribute_vector dc) i = Some NULL_VALUE_ID) ∧
      (¬ row_is_null c i →
       ∃ id, av_get (attribute_vector dc) i = Some id ∧
             id = N.of_nat (lower_bound (dictionary dc) v) ∧
             (Forall comparable (non_null_values c) →
              ∃ entry, dictionary dc !! N.to_nat id = Some entry ∧
                       equal entry v = true ∧
                       (TotalOrder (type_of data_type) → entry = v))).
Proof.
  intros Hwf Hrows. rewrite compress_column_value.
  destruct (compress_value_column_rows c Hwf Hrows) as [w ->]. simpl.
  eexists _, _. split; [done|]. simpl. unfold av_get. simpl.
  intros i v Hv. split.
  - intros Hnull. by eapply encoded_rows_null.
  - intros Hnull. exists (get_value_id (build_dictionary c) v).
    pose proof (build_dictionary_rows c Hwf) as Hlen.
    rewrite get_value_id_small by lia.
    split; [|split; [done|]].
    + rewrite (encoded_rows_not_null _ c i v) by done.
      by rewrite get_value_id_small by lia.
    + intros Hc. rewrite Nat2N.id.
      destruct (build_dictionary_entry c v Hwf Hc) as (entry & Hentry & Heq & _).
      { by eapply non_null_values_lookup. }
      exists entry. split; [done|]. split; [done|].
      intros Hord. by apply equal_spec.
Qed.

Lemma attribute_vector_encodes_rows_witness :
  wf_column float_column ∧
  N.of_nat (length (values float_column)) < UINT32_MODULUS ∧
  Forall comparable (non_null_values float_column) ∧
  ∃ dc stats,
    compress_column DataType.Double (ValueColumnOf DataType.Double float_column)
      = Ok (DictionaryColumnOf DataType.Double dc, stats) ∧
    ∀ i v, values float_column !! i = Some v →
      (row_is_null float_column i → av_get (attribute_vector dc) i = Some NULL_VALUE_ID) ∧
      (¬ row_is_null float_column i →
       ∃ id, av_get (attribute_vector dc) i = Some id ∧
             id = N.of_nat (lower_bound (dictionary dc) v) ∧
             (Forall comparable (non_null_values float_column) →
              ∃ entry, dictionary dc !! N.to_nat id = Some entry ∧
                       equal entry v = true ∧
                       (TotalOrder (type_of DataType.Double) → entry = v))).
Proof.
  split; [reflexivity|]. split; [reflexivity|]. split; [repeat constructor|].
  apply (attribute_vector_encodes_rows DataType.Double float_column); reflexivity.
Defined.

(** C1, as stated, fails on scenario 1 of the specification: row 0 holds
    the value 5, whose [lower_bound] in the dictionary [1, 3, 5] is 2; the
    attribute vector holds 2 and not 3 there, and [dictionary[2 - 1]] is 3
    and not 5.  Without the offset it still fails where a row that is not
    null holds a NaN: of the rows 0.0 and NaN, which no comparison moves,
    both receive 0, so the NaN row decodes to 0.0.  And the decode gives the
    value of the row by [operator==] only: of the rows [+0.0] and [-0.0],
    which are equal, the dictionary keeps the first and the second decodes to
    [+0.0]. *)
Lemma attribute_vector_not_offset_by_one :
  (∃ dc stats,
     compress_column DataType.Int (ValueColumnOf DataType.Int int_column)
       = Ok (DictionaryColumnOf DataType.Int dc, stats) ∧
     values int_column !! 0%nat = Some 5%Z ∧
     ¬ row_is_null int_column 0 ∧
     dictionary dc = [1; 3; 5]%Z ∧
     attributes (attribute_vector dc) = [2; 0; 1; 0; 2] ∧
     av_get (attribute_vector dc) 0 ≠ Some (N.of_nat (lower_bound (dictionary dc) 5%Z) + 1) ∧
     dictionary dc !! (2 - 1)%nat ≠ Some 5%Z) ∧
  (∃ dc stats,
     compress_column DataType.Double (ValueColumnOf DataType.Double nan_last_column)
       = Ok (DictionaryColumnOf DataType.Double dc, stats) ∧
     values nan_last_column !! 1%nat = Some S754_nan ∧
     ¬ row_is_null nan_last_column 1 ∧
     dictionary dc = [S754_zero false; S754_nan] ∧
     attributes (attribute_vector dc) = [0; 0] ∧
     av_get (attribute_vector dc) 1 = Some 0 ∧
     dictionary dc !! 0%nat = Some (S754_zero false) ∧
     S754_zero false ≠ S754_nan ∧
     equal (S754_zero false) S754_nan = false) ∧
  (∃ dc stats,
     compress_column DataType.Double (ValueColumnOf DataType.Double zeros_column)
       = Ok (DictionaryColumnOf DataType.Double dc, stats) ∧
     values zeros_column !! 1%nat = Some (S754_zero true) ∧
     ¬ row_is_null zeros_column 1 ∧
     dictionary dc = [S754_zero false] ∧
     av_get (attribute_vector dc) 1 = Some 0 ∧
     dictionary dc !! 0%nat = Some (S754_zero false) ∧
     S754_zero false ≠ S754_zero true ∧
     equal (S754_zero false) (S754_zero true) = true).
Proof.
  split; [|split].
  - eexists _, _. split; [vm_compute; reflexivity|].
    repeat split; try done. intros [].
  - eexists _, _. split; [vm_compute; reflexivity|].
    repeat split; try done. intros [].
  - eexists _, _. split; [vm_compute; reflexivity|].
    repeat split; try done. intros [].
Qed.

(** C2, as the code has it: the width is fitted to the dictionary size plus
    one, so it is 1 byte up to 254 entries, 2 bytes up to 65534 entries and
    4 bytes beyond. *)
Theorem attribute_vector_width (data_type : DataType) (c : ValueColumn (type_of data_type)) :
  ∃ dc stats,
    compress_column data_type (ValueColumnOf data_type c)
      = Ok (DictionaryColumnOf data_type dc, stats) ∧
    width (attribute_vector dc) =
      if decide (N.of_nat (length (dictionary dc)) ≤ 254) then 1
      else if decide (N.of_nat (length (dictionary dc)) ≤ 65534) then 2
      else 4.
Proof.
  rewrite compress_column_value.
  destruct (compress_value_column_total c) as (av & -> & Hw & _). simpl.
  eexists _, _. split; [done|]. simpl. rewrite Hw.
  unfold _create_fitted_attribute_vector, UINT8_MAX, UINT16_MAX.
  repeat case_decide; simpl; done || lia.
Qed.

(** C2, as stated, fails for a dictionary of exactly 255 entries: the
    attribute vector is 2 bytes wide, not 1. *)
Lemma width_of_255_entries :
  ∃ dc stats,
    compress_column DataType.Int
      (ValueColumnOf DataType.Int (mkValueColumn (Z.of_nat <$> seq 0 255) None))
      = Ok (DictionaryColumnOf DataType.Int dc, stats) ∧
    length (dictionary dc) = 255%nat ∧
    width (attribute_vector dc) = 2 ∧
    width (attribute_vector dc) ≠ 1.
Proof.
  eexists _, _. split; [vm_compute; reflexivity|]. done.
Qed.

(** C3, as the code has it: every dictionary entry is the value of a row
    that is not null, and every such value that is not a NaN equals an entry
    by [operator==].  When no row that is not null holds a NaN the
    dictionary is strictly ascending, so that no two of its entries are
    equal; where the element type is totally ordered it holds exactly the
    values of the rows that are not null. *)
Theorem dictionary_sorted_distinct_non_null (data_type : DataType)
    (c : ValueColumn (type_of data_type)) :
  wf_column c →
  ∃ dc stats,
    compress_column data_type (ValueColumnOf data_type c)
      = Ok (DictionaryColumnOf data_type dc, stats) ∧
    (∀ d, d ∈ dictionary dc → d ∈ non_null_values c) ∧
    (∀ v, v ∈ non_null_values c → comparable v →
          ∃ d, d ∈ dictionary dc ∧ equal d v = true) ∧
    (Forall comparable (non_null_values c) →
     StronglySorted lt_elem (dictionary dc) ∧
     NoDup (dictionary dc) ∧
     ∀ i j x y, dictionary dc !! i = Some x → dictionary dc !! j = Some y →
                equal x y = true → i = j) ∧
    (TotalOrder (type_of data_type) →
     ∀ v, v ∈ dictionary dc ↔ v ∈ non_null_values c).
Proof.
  intros Hwf. rewrite compress_column_value.
  destruct (compress_value_column_total c) as (av & -> & _). simpl.
  eexists _, _. split; [done|]. simpl.
  assert (∀ d, d ∈ build_dictionary c → d ∈ non_null_values c) as Hsub.
  { intros d Hd. eapply elem_of_submseteq; [exact Hd|].
    by apply build_dictionary_submseteq. }
  split; [done|]. split; [|split].
  - intros v Hv Hc. by apply build_dictionary_covers.
  - intros Hc. pose proof (build_dictionary_ascending c Hwf Hc) as Hs.
    split; [done|]. split; [by apply ascending_NoDup|].
    intros i j x y. by apply ascending_distinct.
  - intros Hord v. split; [apply Hsub|]. intros Hv.
    destruct (build_dictionary_covers c v Hwf Hv) as (d & Hd & Heq).
    { apply TotalOrder_comparable. }
    by apply equal_spec in Heq as <-.
Qed.

Lemma dictionary_sorted_distinct_non_null_witness :
  wf_column float_column ∧
  Forall comparable (non_null_values float_column) ∧
  ∃ dc stats,
    compress_column DataType.Double (ValueColumnOf DataType.Double float_column)
      = Ok (DictionaryColumnOf DataType.Double dc, stats) ∧
    (∀ d, d ∈ dictionary dc → d ∈ non_null_values float_column) ∧
    (∀ v, v ∈ non_null_values float_column → comparable v →
          ∃ d, d ∈ dictionary dc ∧ equal d v = true) ∧
    (Forall comparable (non_null_values float_column) →
     StronglySorted lt_elem (dictionary dc) ∧
     NoDup (dictionary dc) ∧
     ∀ i j x y, dictionary dc !! i = Some x → dictionary dc !! j = Some y →
                equal x y = true → i = j) ∧
    (TotalOrder (type_of DataType.Double) →
     ∀ v, v ∈ dictionary dc ↔ v ∈ non_null_values float_column).
Proof.
  split; [reflexivity|]. split; [repeat constructor|].
  apply (dictionary_sorted_distinct_non_null DataType.Double float_column).
  reflexivity.
Defined.

(** C3, as stated, fails on the column of two rows NaN: [operator==] never
    holds for NaN, so [std::unique] keeps both and the dictionary holds the
    same entry twice and is not strictly ascending. *)
Lemma dictionary_repeats_NaN :
  ∃ dc stats,
    compress_column DataType.Double (ValueColumnOf DataType.Double nan_twice_column)
      = Ok (DictionaryColumnOf DataType.Double dc, stats) ∧
    non_null_values nan_twice_column = [S754_nan; S754_nan] ∧
    dictionary dc = [S754_nan; S754_nan] ∧
    ¬ NoDup (dictionary dc) ∧
    ¬ StronglySorted lt_elem (dictionary dc).
Proof.
  eexists _, _. split; [vm_compute; reflexivity|]. simpl.
  split; [done|]. split; [done|]. split.
  - intros Hnd. apply NoDup_cons in Hnd as [Hnin _]. apply Hnin. left.
  - intros Hs. apply StronglySorted_inv in Hs as [_ Hlt].
    apply Forall_cons in Hlt as [Hlt _]. done.
Qed.

(** C6: statistics are produced exactly when the dictionary is not empty,
    and then hold its first entry as minimum and its last entry as
    maximum. *)
Theorem statistics_iff_nonempty (data_type : DataType) (c : ValueColumn (type_of data_type)) :
  ∃ dc stats,
    compress_column data_type (ValueColumnOf data_type c)
      = Ok (DictionaryColumnOf data_type dc, stats) ∧
    (is_Some stats ↔ dictionary dc ≠ []) ∧
    (∀ s, stats = Some s →
          ∃ s', s = StatisticsOf data_type s' ∧
                head (dictionary dc) = Some (stat_min s') ∧
                last (dictionary dc) = Some (stat_max s')).
Proof.
  rewrite compress_column_value.
  destruct (compress_value_column_total c) as (av & -> & _). simpl.
  eexists _, _. split; [done|]. simpl.
  destruct (make_stats_spec (build_dictionary c)) as [Hiff Hminmax].
  split.
  - by rewrite fmap_is_Some.
  - intros s Hs. destruct (make_stats (build_dictionary c)) as [s'|]; [|done].
    injection Hs as <-. exists s'. split; [done|]. by apply Hminmax.
Qed.

(** C9, as the code has it: when no row that is not null holds a NaN, the
    dictionary is strictly ascending and a row that is not null receives the
    0-based rank of its value in it: the number of entries below the value,
    which is the position of the entry that equals the value.  The rows that
    hold the first entry of the dictionary so receive 0, and the null rows
    receive [NULL_VALUE_ID]: with that constant being 0, as the specification
    has it, the former hold what the latter hold. *)
Theorem value_id_is_rank (data_type : DataType) (c : ValueColumn (type_of data_type)) :
  wf_column c →
  N.of_nat (length (values c)) < UINT32_MODULUS →
  Forall comparable (non_null_values c) →
  ∃ dc stats,
    compress_column data_type (ValueColumnOf data_type c)
      = Ok (DictionaryColumnOf data_type dc, stats) ∧
    StronglySorted lt_elem (dictionary dc) ∧
    (∀ i v, values c !! i = Some v → ¬ row_is_null c i →
       ∃ rank entry,
         av_get (attribute_vector dc) i = Some (N.of_nat rank) ∧
         rank = length (filter (λ x, less x v = true) (dictionary dc)) ∧
         dictionary dc !! rank = Some entry ∧
         equal entry v = true) ∧
    (∀ i v first, values c !! i = Some v → ¬ row_is_null c i →
       head (dictionary dc) = Some first → equal first v = true →
       av_get (attribute_vector dc) i = Some 0 ∧
       (NULL_VALUE_ID = 0 →
        ∀ j w, values c !! j = Some w → row_is_null c j →
          av_get (attribute_vector dc) j = av_get (attribute_vector dc) i)) ∧
    (∀ j w, values c !! j = Some w → row_is_null c j →
       av_get (attribute_vector dc) j = Some NULL_VALUE_ID).
Proof.
  intros Hwf Hrows Hc. rewrite compress_column_value.
  destruct (compress_value_column_rows c Hwf Hrows) as [wd ->]. simpl.
  eexists _, _. split; [done|]. simpl. unfold av_get. simpl.
  pose proof (build_dictionary_ascending c Hwf Hc) as Hs.
  pose proof (build_dictionary_rows c Hwf) as Hlen.
  split; [done|]. split; [|split].
  - intros i v Hv Hnull.
    destruct (build_dictionary_entry c v Hwf Hc) as (entry & Hentry & Heq & Hrank).
    { by eapply non_null_values_lookup. }
    exists (lower_bound (build_dictionary c) v), entry.
    rewrite (encoded_rows_not_null _ c i v) by done.
    by rewrite get_value_id_small by lia.
  - intros i v first Hv Hnull Hhd Heq.
    rewrite (encoded_rows_not_null _ c i v) by done.
    rewrite get_value_id_small by lia.
    rewrite (lower_bound_equal _ v first 0 Hs); [|by rewrite <- head_lookup|done].
    split; [done|]. intros Hzero j w Hw Hj.
    rewrite (encoded_rows_null _ c j w Hw Hj). by rewrite Hzero.
  - intros j w Hw Hj. by eapply encoded_rows_null.
Qed.

Lemma value_id_is_rank_witness :
  wf_column float_ranks_column ∧
  N.of_nat (length (values float_ranks_column)) < UINT32_MODULUS ∧
  Forall comparable (non_null_values float_ranks_column) ∧
  NULL_VALUE_ID = 0 ∧
  ∃ dc stats,
    compress_column DataType.Double (ValueColumnOf DataType.Double float_ranks_column)
      = Ok (DictionaryColumnOf DataType.Double dc, stats) ∧
    StronglySorted lt_elem (dictionary dc) ∧
    (∀ i v, values float_ranks_column !! i = Some v → ¬ row_is_null float_ranks_column i →
       ∃ rank entry,
         av_get (attribute_vector dc) i = Some (N.of_nat rank) ∧
         rank = length (filter (λ x, less x v = true) (dictionary dc)) ∧
         dictionary dc !! rank = Some entry ∧
         equal entry v = true) ∧
    (∀ i v first, values float_ranks_column !! i = Some v →
       ¬ row_is_null float_ranks_column i →
       head (dictionary dc) = Some first → equal first v = true →
       av_get (attribute_vector dc) i = Some 0 ∧
       (NULL_VALUE_ID = 0 →
        ∀ j w, values float_ranks_column !! j = Some w → row_is_null float_ranks_column j →
          av_get (attribute_vector dc) j = av_get (attribute_vector dc) i)) ∧
    (∀ j w, values float_ranks_column !! j = Some w → row_is_null float_ranks_column j →
       av_get (attribute_vector dc) j = Some NULL_VALUE_ID).
Proof.
  assert (Forall comparable (non_null_values float_ranks_column)) as Hc
    by repeat constructor.
  split; [reflexivity|]. split; [reflexivity|]. split; [exact Hc|].
  split; [reflexivity|].
  apply (value_id_is_rank DataType.Double float_ranks_column);
    [reflexivity|reflexivity|exact Hc].
Defined.

(** C9, as stated, fails where a row that is not null holds a NaN.  Of the
    rows NaN and 0.0, which no comparison moves, the dictionary is
    [NaN, 0.0]; the row that holds 0.0, entry 1 of the dictionary, receives
    0, the position of NaN. *)
Lemma value_id_beside_NaN_is_no_rank :
  ∃ dc stats,
    compress_column DataType.Double (ValueColumnOf DataType.Double nan_first_column)
      = Ok (DictionaryColumnOf DataType.Double dc, stats) ∧
    values nan_first_column !! 1%nat = Some (S754_zero false) ∧
    ¬ row_is_null nan_first_column 1 ∧
    dictionary dc = [S754_nan; S754_zero false] ∧
    av_get (attribute_vector dc) 1 = Some 0 ∧
    av_get (attribute_vector dc) 1 ≠ Some 1 ∧
    dictionary dc !! 0%nat = Some S754_nan ∧
    dictionary dc !! 1%nat = Some (S754_zero false) ∧
    equal S754_nan (S754_zero false) = false.
Proof.
  eexists _, _. split; [vm_compute; reflexivity|].
  repeat split; try done. intros [].
Qed.

(** What the compressor makes of a floating-point column that holds a NaN
    in a row that is not null. *)
Lemma compress_float_column (c : ValueColumn spec_float) :
  wf_column c → S754_nan ∈ non_null_values c →
  ∃ dc stats,
    compress_value_column c = Ok (dc, Some stats) ∧
    av_size (attribute_vector dc) = length (values c) ∧
    S754_nan ∈ dictionary dc ∧
    length (filter (λ x, x = S754_nan) (dictionary dc)) =
      length (filter (λ x, x = S754_nan) (non_null_values c)) ∧
    (N.of_nat (length (values c)) < UINT32_MODULUS →
     ∀ i, values c !! i = Some S754_nan → ¬ row_is_null c i →
          av_get (attribute_vector dc) i = Some 0).
Proof.
  intros Hwf Hnan.
  destruct (compress_value_column_total c) as (av & Hcomp & _ & Hsize).
  pose proof (build_dictionary_filter (λ x, x = S754_nan) c Hwf) as Hfilter.
  assert (S754_nan ∈ build_dictionary c) as Hin.
  { eapply (list_elem_of_filter (λ x, x = S754_nan)). rewrite Hfilter.
    - by apply list_elem_of_filter.
    - intros x y ->. apply NaN_unordered. }
  destruct (make_stats (build_dictionary c)) as [s|] eqn:Hstats.
  2:{ destruct (build_dictionary c); [by apply elem_of_nil in Hin|done]. }
  eexists _, s. split; [exact Hcomp|]. simpl.
  split; [done|]. split; [done|]. split.
  - rewrite Hfilter; [done|]. intros x y ->. apply NaN_unordered.
  - intros Hrows i Hv Hnull.
    destruct (compress_value_column_rows c Hwf Hrows) as [w Hrows'].
    rewrite Hcomp in Hrows'. injection Hrows' as ->. unfold av_get. simpl.
    rewrite (encoded_rows_not_null _ c i S754_nan) by done.
    pose proof (build_dictionary_rows c Hwf) as Hlen.
    rewrite get_value_id_small by lia.
    unfold lower_bound. rewrite lower_bound_loop_none_less; [done|].
    intros x _. apply NaN_unordered.
Qed.

(** C7, as the code has it: there is no check for NaN.  A floating-point
    column that holds a NaN in a row that is not null is compressed and no
    error is raised: a dictionary column with one entry per row comes back
    with statistics, its dictionary holds a NaN for each NaN of a row that is
    not null ([operator==] never holds for NaN, so [std::unique] merges
    none), and, with fewer than [2^32] rows, every such row receives the
    id 0, no dictionary entry being below NaN by [operator<]. *)
Theorem nan_column_is_compressed (c : ValueColumn spec_float) :
  wf_column c → S754_nan ∈ non_null_values c →
  (∃ dc stats,
     compress_column DataType.Float (ValueColumnOf DataType.Float c)
       = Ok (DictionaryColumnOf DataType.Float dc, Some stats) ∧
     av_size (attribute_vector dc) = length (values c) ∧
     S754_nan ∈ dictionary dc ∧
     length (filter (λ x, x = S754_nan) (dictionary dc)) =
       length (filter (λ x, x = S754_nan) (non_null_values c)) ∧
     (N.of_nat (length (values c)) < UINT32_MODULUS →
      ∀ i, values c !! i = Some S754_nan → ¬ row_is_null c i →
           av_get (attribute_vector dc) i = Some 0)) ∧
  (∃ dc stats,
     compress_column DataType.Double (ValueColumnOf DataType.Double c)
       = Ok (DictionaryColumnOf DataType.Double dc, Some stats) ∧
     av_size (attribute_vector dc) = length (values c) ∧
     S754_nan ∈ dictionary dc ∧
     length (filter (λ x, x = S754_nan) (dictionary dc)) =
       length (filter (λ x, x = S754_nan) (non_null_values c)) ∧
     (N.of_nat (length (values c)) < UINT32_MODULUS →
      ∀ i, values c !! i = Some S754_nan → ¬ row_is_null c i →
           av_get (attribute_vector dc) i = Some 0)).
Proof.
  intros Hwf Hnan.
  destruct (compress_float_column c Hwf Hnan) as (dc & stats & Hcomp & Hrest).
  split.
  - rewrite (compress_column_value DataType.Float).
    change (compress_value_column (T:=type_of DataType.Float) c)
      with (compress_value_column c).
    rewrite Hcomp. simpl. by eexists dc, _.
  - rewrite (compress_column_value DataType.Double).
    change (compress_value_column (T:=type_of DataType.Double) c)
      with (compress_value_column c).
    rewrite Hcomp. simpl. by eexists dc, _.
Qed.

Lemma nan_column_is_compressed_witness :
  wf_column nan_float_column ∧
  S754_nan ∈ non_null_values nan_float_column ∧
  N.of_nat (length (values nan_float_column)) < UINT32_MODULUS ∧
  (∃ dc stats,
     compress_column DataType.Float (ValueColumnOf DataType.Float nan_float_column)
       = Ok (DictionaryColumnOf DataType.Float dc, Some stats) ∧
     av_size (attribute_vector dc) = length (values nan_float_column) ∧
     S754_nan ∈ dictionary dc ∧
     length (filter (λ x, x = S754_nan) (dictionary dc)) =
       length (filter (λ x, x = S754_nan) (non_null_values nan_float_column)) ∧
     (N.of_nat (length (values nan_float_column)) < UINT32_MODULUS →
      ∀ i, values nan_float_column !! i = Some S754_nan → ¬ row_is_null nan_float_column i →
           av_get (attribute_vector dc) i = Some 0)) ∧
  (∃ dc stats,
     compress_column DataType.Double (ValueColumnOf DataType.Double nan_float_column)
       = Ok (DictionaryColumnOf DataType.Double dc, Some stats) ∧
     av_size (attribute_vector dc) = length (values nan_float_column) ∧
     S754_nan ∈ dictionary dc ∧
     length (filter (λ x, x = S754_nan) (dictionary dc)) =
       length (filter (λ x, x = S754_nan) (non_null_values nan_float_column)) ∧
     (N.of_nat (length (values nan_float_column)) < UINT32_MODULUS →
      ∀ i, values nan_float_column !! i = Some S754_nan → ¬ row_is_null nan_float_column i →
           av_get (attribute_vector dc) i = Some 0)).
Proof.
  assert (S754_nan ∈ non_null_values nan_float_column) as Hnan by (simpl; right; left).
  split; [reflexivity|]. split; [exact Hnan|]. split; [reflexivity|].
  apply (nan_column_is_compressed nan_float_column); [reflexivity|exact Hnan].
Defined.

(** C7, as stated, fails on the column of the single row NaN: the
    compressor returns the dictionary column of dictionary [NaN] and the
    statistics (NaN, NaN), not a Domain error. *)
Lemma nan_column_not_rejected :
  S754_nan ∈ non_null_values nan_column ∧
  compress_column DataType.Double (ValueColumnOf DataType.Double nan_column)
    = Ok (DictionaryColumnOf DataType.Double
            {| dictionary := [S754_nan];
               attribute_vector := {| width := 1; attributes := [0] |} |},
          Some (StatisticsOf DataType.Double
                  {| stat_min := S754_nan; stat_max := S754_nan |})) ∧
  compress_column DataType.Double (ValueColumnOf DataType.Double nan_column)
    ≠ Err DomainError.
Proof.
  split; [simpl; left|]. split; [vm_compute; reflexivity|]. done.
Qed.

(** ** The scenarios of the specification, as the code runs them *)

(** Scenario 1: rows [5, 1, 3, 1, 5]. *)
Example scenario_1 :
  compress_column DataType.Int (ValueColumnOf DataType.Int int_column)
  = Ok (DictionaryColumnOf DataType.Int
          {| dictionary := [1; 3; 5]%Z;
             attribute_vector := {| width := 1; attributes := [2; 0; 1; 0; 2] |} |},
        Some (StatisticsOf DataType.Int {| stat_min := 1%Z; stat_max := 5%Z |})).
Proof. vm_compute. reflexivity. Qed.

(** Scenario 2: rows "b", "a", null, "b", null. *)
Example scenario_2 :
  compress_column DataType.String (ValueColumnOf DataType.String string_column)
  = Ok (DictionaryColumnOf DataType.String
          {| dictionary := ["a"; "b"];
             attribute_vector := {| width := 1; attributes := [1; 0; 0; 1; 0] |} |},
        Some (StatisticsOf DataType.String {| stat_min := "a"; stat_max := "b" |})).
Proof. vm_compute. reflexivity. Qed.

(** Scenario 3: 300 distinct integers give an attribute vector of width 2. *)
Example scenario_3 :
  ∃ dc stats,
    compress_column DataType.Int
      (ValueColumnOf DataType.Int (mkValueColumn (Z.of_nat <$> seq 0 300) None))
      = Ok (DictionaryColumnOf DataType.Int dc, stats) ∧
    length (dictionary dc) = 300%nat ∧ width (attribute_vector dc) = 2.
Proof. eexists _, _. split; [vm_compute; reflexivity|]. done. Qed.

(** Scenario 4: three null rows. *)
Example scenario_4 :
  compress_column DataType.Int
    (ValueColumnOf DataType.Int (mkValueColumn [0; 0; 0]%Z (Some [true; true; true])))
  = Ok (DictionaryColumnOf DataType.Int
          {| dictionary := [];
             attribute_vector := {| width := 1; attributes := [0; 0; 0] |} |},
        None).
Proof. vm_compute. reflexivity. Qed.

(** ** Properties of [compress_chunk] and [compress_table] *)

(** The exceptions that can end the loop over the columns. *)
Lemma compress_columns_Err (column_types : list DataType) (column_ids : list nat)
    (column_stats : ChunkStatistics) (chunk : Chunk) (e : Error) :
  (compress_columns column_types column_ids column_stats chunk).1 = Err e →
  e = UndefinedBehaviour ∨ e = AssertionFailure already_compressed ∨ e = SchemaMismatchError.
Proof.
  revert column_stats chunk.
  induction column_ids as [|column_id column_ids IH]; intros column_stats chunk; simpl.
  - done.
  - destruct (get_mutable_column chunk column_id) as [column|]; [|intros [= <-]; by left].
    destruct (column_types !! column_id) as [data_type|]; [|intros [= <-]; by left].
    destruct (compress_column data_type column) as [[dict_column stats]|e'] eqn:Hc.
    + unfold replace_column. case_decide; [apply IH|]. intros [= <-]. by right; right.
    + apply compress_column_Err in Hc as ->. intros [= <-]. by right; left.
Qed.

(** A chunk whose first column is a dictionary column is rejected before
    anything is written to it. *)
Lemma compress_chunk_already_compressed (IS_DEBUG : bool) (column_types : list DataType)
    (chunk : Chunk) (data_type : DataType) (dc : DictionaryColumn (type_of data_type))
    (others : list BaseColumn) :
  columns chunk = DictionaryColumnOf data_type dc :: others →
  length column_types = column_count chunk →
  compress_chunk IS_DEBUG column_types chunk
    = (Err (AssertionFailure already_compressed), chunk).
Proof.
  intros Hcols Hlen. unfold compress_chunk, DebugAssert, Assert.
  rewrite bool_decide_eq_true_2 by done.
  assert (compress_columns column_types (seq 0 (column_count chunk)) [] chunk
          = (Err (AssertionFailure already_compressed), chunk)) as ->.
  { unfold column_count in *. rewrite Hcols in *. simpl in *.
    unfold get_mutable_column. rewrite Hcols. simpl.
    destruct column_types as [|t ts]; [done|]. done. }
  by destruct IS_DEBUG.
Qed.

(** C5: compressing a table (or a chunk) whose columns are dictionary
    columns already fails at the first column of the first chunk with the
    assertion "Column is either already compressed or type mismatches.", and
    the chunks are as they were: no column is replaced and no statistics are
    installed. *)
Theorem recompress_fails_unchanged (IS_DEBUG : bool) (table : Table)
    (store : gmap ChunkPtr Chunk) (first : ChunkPtr) (others : list ChunkPtr)
    (chunk : Chunk) (data_type : DataType) (dc : DictionaryColumn (type_of data_type))
    (other_columns : list BaseColumn) :
  chunks table = first :: others →
  store !! first = Some chunk →
  columns chunk = DictionaryColumnOf data_type dc :: other_columns →
  length (column_types table) = column_count chunk →
  compress_chunk IS_DEBUG (column_types table) chunk
    = (Err (AssertionFailure already_compressed), chunk) ∧
  compress_table IS_DEBUG table store
    = (Err (AssertionFailure already_compressed), store).
Proof.
  intros Hchunks Hfirst Hcols Hlen.
  pose proof (compress_chunk_already_compressed IS_DEBUG _ _ _ _ _ Hcols Hlen) as Hchunk.
  split; [done|].
  unfold compress_table, chunk_count. rewrite Hchunks. simpl.
  unfold get_chunk. rewrite Hchunks. simpl.
  unfold compress_chunk_at. rewrite Hfirst, Hchunk.
  by rewrite insert_id.
Qed.

Lemma recompress_fails_unchanged_witness :
  compress_chunk true (column_types compressed_table) compressed_chunk
    = (Err (AssertionFailure already_compressed), compressed_chunk) ∧
  compress_table true compressed_table {[ 1%positive := compressed_chunk ]}
    = (Err (AssertionFailure already_compressed), {[ 1%positive := compressed_chunk ]}).
Proof.
  apply (recompress_fails_unchanged true compressed_table {[ 1%positive := compressed_chunk ]}
           1%positive [] compressed_chunk DataType.Int compressed_int_column []);
    reflexivity.
Defined.

(** C8, as the code has it: the comparison of the two lengths is a
    [DebugAssert].  In a debug build a call with differing lengths fails
    with an assertion failure, not a SchemaMismatch error, and leaves the
    chunk as it was; in a release build the comparison is not made and the
    call does not fail with that assertion.  With equal lengths the debug
    build goes on as the release build does. *)
Theorem column_count_check_debug_only (column_types : list DataType) (chunk : Chunk) :
  length column_types ≠ column_count chunk →
  compress_chunk true column_types chunk
    = (Err (AssertionFailure column_count_mismatch), chunk) ∧
  (compress_chunk false column_types chunk).1
    ≠ Err (AssertionFailure column_count_mismatch) ∧
  (∀ column_types', length column_types' = column_count chunk →
     compress_chunk true column_types' chunk = compress_chunk false column_types' chunk).
Proof.
  intros Hne. split; [|split].
  - unfold compress_chunk, DebugAssert, Assert.
    by rewrite bool_decide_eq_false_2.
  - unfold compress_chunk, DebugAssert.
    destruct (compress_columns column_types (seq 0 (column_count chunk)) [] chunk)
      as [[column_stats|e] chunk'] eqn:Hloop; simpl; [done|].
    assert ((compress_columns column_types (seq 0 (column_count chunk)) [] chunk).1 = Err e)
      as He by (by rewrite Hloop).
    apply compress_columns_Err in He as [-> | [-> | ->] ]; done.
  - intros column_types' Heq. unfold compress_chunk, DebugAssert, Assert.
    by rewrite bool_decide_eq_true_2.
Qed.

Lemma column_count_check_debug_only_witness :
  length [DataType.Int; DataType.Int] ≠ column_count one_column_chunk ∧
  compress_chunk true [DataType.Int; DataType.Int] one_column_chunk
    = (Err (AssertionFailure column_count_mismatch), one_column_chunk) ∧
  (compress_chunk false [DataType.Int; DataType.Int] one_column_chunk).1
    ≠ Err (AssertionFailure column_count_mismatch) ∧
  (∀ column_types', length column_types' = column_count one_column_chunk →
     compress_chunk true column_types' one_column_chunk
     = compress_chunk false column_types' one_column_chunk).
Proof.
  assert (length [DataType.Int; DataType.Int] ≠ column_count one_column_chunk) as Hne
    by (vm_compute; lia).
  split; [exact Hne|].
  apply (column_count_check_debug_only [DataType.Int; DataType.Int] one_column_chunk Hne).
Defined.

(** C8, as stated, fails in a release build: with two column types for a
    chunk of one column the call succeeds, compresses the column and
    installs the statistics. *)
Lemma release_build_accepts_mismatch :
  length [DataType.Int; DataType.Int] ≠ column_count one_column_chunk ∧
  compress_chunk false [DataType.Int; DataType.Int] one_column_chunk
    = (Ok [Some (StatisticsOf DataType.Int {| stat_min := 1%Z; stat_max := 5%Z |})],
       compressed_chunk).
Proof.
  split; [vm_compute; lia|]. vm_compute. reflexivity.
Qed.

(** ** Properties of [GetTable] *)

Lemma prune_chunks_spec (original : Table) (excluded : gset ChunkID)
    (before rest : list ChunkPtr) (pruned : Table) :
  chunks original = before ++ rest →
  prune_chunks original excluded (seq (length before) (length rest)) pruned =
  Ok {| schema := schema pruned;
        max_chunk_size := max_chunk_size pruned;
        chunks := chunks pruned ++ retained_chunks excluded (length before) rest |}.
Proof.
  unfold retained_chunks.
  revert before pruned. induction rest as [|c rest IH]; intros before pruned Hchunks.
  - simpl. rewrite app_nil_r. by destruct pruned.
  - simpl. assert (chunks original = (before ++ [c]) ++ rest) as Hchunks'.
    { by rewrite <- (assoc_L (++)). }
    specialize (IH (before ++ [c])). rewrite length_app in IH. simpl in IH.
    rewrite Nat.add_1_r in IH.
    case_decide as Hin.
    + rewrite filter_cons_False by (simpl; tauto). by apply IH.
    + rewrite filter_cons_True by done.
      unfold get_chunk. rewrite Hchunks, list_lookup_middle by done.
      rewrite IH by done. simpl. by rewrite <- (assoc_L (++)).
Qed.

Lemma retained_chunks_sublist (excluded : gset ChunkID) (first_id : nat)
    (chunks : list ChunkPtr) :
  retained_chunks excluded first_id chunks `sublist_of` chunks.
Proof.
  unfold retained_chunks.
  set (ids := seq first_id (length chunks)).
  assert ((filter (λ ic : nat * ChunkPtr, N.of_nat ic.1 ∉ excluded) (zip ids chunks)).*2
          `sublist_of` (zip ids chunks).*2) as Hsub.
  { apply fmap_sublist, sublist_filter. }
  rewrite snd_zip in Hsub; [done|]. unfold ids. by rewrite length_seq.
Qed.

Lemma retained_chunks_length_ids (excluded : gset ChunkID) (first_id : nat)
    (chunks : list ChunkPtr) :
  length (retained_chunks excluded first_id chunks) =
  length (filter (λ i, N.of_nat i ∉ excluded) (seq first_id (length chunks))).
Proof.
  unfold retained_chunks. rewrite length_fmap.
  revert first_id. induction chunks as [|c chunks IH]; intros first_id; simpl; [done|].
  destruct (decide (N.of_nat first_id ∈ excluded)) as [Hin|Hin].
  - rewrite !filter_cons_False by (simpl; tauto). apply IH.
  - rewrite !filter_cons_True by done. simpl. f_equal. apply IH.
Qed.

Lemma excluded_valid_size (excluded : gset ChunkID) (n : nat) :
  size (excluded ∩ valid_chunk_ids n) =
  length (filter (λ i, N.of_nat i ∈ excluded) (seq 0 n)).
Proof.
  unfold valid_chunk_ids.
  assert (excluded ∩ list_to_set (N.of_nat <$> seq 0 n) =
          list_to_set (C:=gset ChunkID)
            (N.of_nat <$> filter (λ i, N.of_nat i ∈ excluded) (seq 0 n))) as ->.
  { apply set_eq. intros id.
    rewrite elem_of_intersection, !elem_of_list_to_set, !list_elem_of_fmap.
    split.
    - intros (Hin & i & -> & Hi). exists i. split; [done|].
      by apply list_elem_of_filter.
    - intros (i & -> & [Hin Hi]%list_elem_of_filter). split; [done|]. by exists i. }
  rewrite size_list_to_set, length_fmap; [done|].
  apply NoDup_fmap_2; [apply _|]. apply NoDup_filter, NoDup_seq.
Qed.

Lemma retained_chunks_count (excluded : gset ChunkID) (chunks : list ChunkPtr) :
  length (retained_chunks excluded 0 chunks) =
  (length chunks - size (excluded ∩ valid_chunk_ids (length chunks)))%nat.
Proof.
  rewrite retained_chunks_length_ids, excluded_valid_size.
  pose proof (filter_app_complement (λ i, N.of_nat i ∈ excluded) (seq 0 (length chunks)))
    as Hperm.
  apply Permutation_length in Hperm. rewrite length_app, length_seq in Hperm.
  lia.
Qed.

(** C4: executing the operator on a registered table returns the table
    itself, the store untouched, when no chunk is excluded; otherwise it
    returns a new table of the same layout whose chunks are the chunks of
    the original whose ids are not excluded, the same pointers in the same
    order, as many as the original has less the excluded ids that are ids of
    the original; the original table and all chunks stay as they were. *)
Theorem on_execute_prunes (op : GetTable) (store : Store) (original_ptr : TablePtr)
    (original : Table) :
  storage_manager store !! _name op = Some original_ptr →
  table_store store !! original_ptr = Some original →
  (_excluded_chunks op = None ∨ _excluded_chunks op = Some [] →
   _on_execute op store = (Ok original_ptr, store)) ∧
  (∀ excluded, _excluded_chunks op = Some excluded → excluded ≠ [] →
   ∃ pruned_ptr pruned store',
     _on_execute op store = (Ok pruned_ptr, store') ∧
     table_store store !! pruned_ptr = None ∧
     pruned_ptr ≠ original_ptr ∧
     table_store store' = <[pruned_ptr := pruned]> (table_store store) ∧
     table_store store' !! original_ptr = Some original ∧
     chunk_store store' = chunk_store store ∧
     storage_manager store' = storage_manager store ∧
     schema pruned = schema original ∧
     max_chunk_size pruned = max_chunk_size original ∧
     chunks pruned = retained_chunks (list_to_set excluded) 0 (chunks original) ∧
     chunks pruned `sublist_of` chunks original ∧
     chunk_count pruned =
       (chunk_count original
        - size (list_to_set excluded ∩ valid_chunk_ids (chunk_count original) : gset ChunkID))%nat).
Proof.
  intros Hreg Htable. split.
  - intros Hnone. unfold _on_execute, get_table. rewrite Hreg.
    by destruct Hnone as [-> | ->].
  - intros excluded Hexcl Hne. unfold _on_execute, get_table.
    rewrite Hreg, Hexcl, Htable.
    destruct excluded as [|id excluded]; [done|].
    set (X := list_to_set (id :: excluded) : gset ChunkID).
    pose proof (prune_chunks_spec original X [] (chunks original)
                  (create_with_layout_from original (max_chunk_size original)) eq_refl)
      as Hloop.
    simpl in Hloop. unfold chunk_count. rewrite Hloop.
    set (p := fresh (dom (table_store store))).
    assert (table_store store !! p = None) as Hfresh.
    { apply not_elem_of_dom, is_fresh. }
    assert (p ≠ original_ptr) as Hp by congruence.
    eexists p, _, _. split; [done|]. simpl.
    repeat split; try done.
    + by rewrite lookup_insert_ne.
    + apply retained_chunks_sublist.
    + apply retained_chunks_count.
Qed.

Lemma on_execute_prunes_witness :
  storage_manager four_chunk_store !! _name pruning_operator = Some 7%positive ∧
  table_store four_chunk_store !! 7%positive = Some four_chunk_table ∧
  (_excluded_chunks pruning_operator = None ∨ _excluded_chunks pruning_operator = Some [] →
   _on_execute pruning_operator four_chunk_store = (Ok 7%positive, four_chunk_store)) ∧
  (∀ excluded, _excluded_chunks pruning_operator = Some excluded → excluded ≠ [] →
   ∃ pruned_ptr pruned store',
     _on_execute pruning_operator four_chunk_store = (Ok pruned_ptr, store') ∧
     table_store four_chunk_store !! pruned_ptr = None ∧
     pruned_ptr ≠ 7%positive ∧
     table_store store' = <[pruned_ptr := pruned]> (table_store four_chunk_store) ∧
     table_store store' !! 7%positive = Some four_chunk_table ∧
     chunk_store store' = chunk_store four_chunk_store ∧
     storage_manager store' = storage_manager four_chunk_store ∧
     schema pruned = schema four_chunk_table ∧
     max_chunk_size pruned = max_chunk_size four_chunk_table ∧
     chunks pruned = retained_chunks (list_to_set excluded) 0 (chunks four_chunk_table) ∧
     chunks pruned `sublist_of` chunks four_chunk_table ∧
     chunk_count pruned =
       (chunk_count four_chunk_table
        - size (list_to_set excluded ∩ valid_chunk_ids (chunk_count four_chunk_table)
                : gset ChunkID))%nat).
Proof.
  assert (storage_manager four_chunk_store !! _name pruning_operator = Some 7%positive)
    as Hreg by reflexivity.
  assert (table_store four_chunk_store !! 7%positive = Some four_chunk_table)
    as Htable by reflexivity.
  split; [exact Hreg|]. split; [exact Htable|].
  apply (on_execute_prunes pruning_operator four_chunk_store 7%positive four_chunk_table
           Hreg Htable).
Defined.

(** Scenario 5 of the specification: of the four chunks the view keeps
    chunks 0 and 2, in that order, in a table at a new location. *)
Example on_execute_scenario_5 :
  ∃ store',
    _on_execute pruning_operator four_chunk_store = (Ok 8%positive, store') ∧
    table_store store' !! 8%positive =
      Some {| schema := schema four_chunk_table;
              max_chunk_size := 5;
              chunks := [1; 3]%positive |} ∧
    table_store store' !! 7%positive = Some four_chunk_table.
Proof. eexists. split; [vm_compute; reflexivity|]. split; vm_compute; reflexivity. Qed.

(** C10: recreating the operator gives an operator of the same table name
    without excluded chunks, whatever had been excluded on the original. *)
Theorem recreate_drops_excluded_chunks {Args : Type} (op : GetTable)
    (excluded_chunks : list ChunkID) (args : list Args) :
  table_name (recreate (set_excluded_chunks excluded_chunks op) args) = table_name op ∧
  _excluded_chunks (set_excluded_chunks excluded_chunks op) = Some excluded_chunks ∧
  _excluded_chunks (recreate (set_excluded_chunks excluded_chunks op) args) = None ∧
  _excluded_chunks (recreate op args) = None ∧
  recreate (set_excluded_chunks excluded_chunks op) args = GetTable_new (table_name op).
Proof. done. Qed.

(** ** Further properties of the column compressor *)

(** X1: whatever the element type, the attribute vector of the compressed
    column has one entry per row, and no entry exceeds the size of the
    dictionary or the range of the width chosen: nothing is truncated. *)
Theorem attribute_vector_entries_bounded (data_type : DataType)
    (c : ValueColumn (type_of data_type)) :
  ∃ dc stats,
    compress_column data_type (ValueColumnOf data_type c)
      = Ok (DictionaryColumnOf data_type dc, stats) ∧
    av_size (attribute_vector dc) = length (values c) ∧
    Forall (λ id, id ≤ N.of_nat (length (dictionary dc)) ∧
                  id < 2 ^ (8 * width (attribute_vector dc)))
      (attributes (attribute_vector dc)).
Proof.
  rewrite compress_column_value.
  destruct (compress_value_column_entries c) as (av & -> & Hsize & Hall). simpl.
  by eexists _, _.
Qed.

(** X2: a column that is not nullable is compressed without loss: looking up
    every attribute-vector entry in the dictionary gives back the values of
    the column, row by row. *)
Theorem non_nullable_round_trip (data_type : DataType)
    (c : ValueColumn (type_of data_type)) :
  TotalOrder (type_of data_type) → null_values c = None →
  N.of_nat (length (values c)) < UINT32_MODULUS →
  ∃ dc stats,
    compress_column data_type (ValueColumnOf data_type c)
      = Ok (DictionaryColumnOf data_type dc, stats) ∧
    (λ id, dictionary dc !! N.to_nat id) <$> attributes (attribute_vector dc)
      = Some <$> values c.
Proof.
  intros Hord Hnone Hrows.
  assert (wf_column c) as Hwf by (unfold wf_column; by rewrite Hnone).
  rewrite compress_column_value.
  destruct (compress_value_column_rows c Hwf Hrows) as [w ->]. simpl.
  eexists _, _. split; [done|]. simpl.
  destruct (build_dictionary_spec c Hwf) as [Hs Hin].
  pose proof (build_dictionary_length c Hwf) as Hlen.
  unfold encoded_rows. rewrite Hnone, <- list_fmap_compose.
  apply list_fmap_ext. intros i v Hv. simpl.
  rewrite get_value_id_small by lia. rewrite Nat2N.id.
  apply lower_bound_lookup; [done|]. apply Hin.
  unfold non_null_values. rewrite Hnone. by eapply list_elem_of_lookup_2.
Qed.

Lemma non_nullable_round_trip_witness :
  null_values int_column = None ∧
  N.of_nat (length (values int_column)) < UINT32_MODULUS ∧
  ∃ dc stats,
    compress_column DataType.Int (ValueColumnOf DataType.Int int_column)
      = Ok (DictionaryColumnOf DataType.Int dc, stats) ∧
    (λ id, dictionary dc !! N.to_nat id) <$> attributes (attribute_vector dc)
      = Some <$> values int_column.
Proof.
  split; [reflexivity|]. split; [reflexivity|].
  apply (non_nullable_round_trip DataType.Int int_column Z_TotalOrder); reflexivity.
Defined.

Section SortedEnds.
Context {T : Type} `{TotalOrder T}.

Lemma StronglySorted_lt_head (d : list T) (front x : T) :
  StronglySorted lt_elem d → head d = Some front → x ∈ d → less x front = false.
Proof.
  intros Hs Hhd Hx. destruct d as [|a d]; [done|]. injection Hhd as ->.
  apply StronglySorted_inv in Hs as [_ Hall].
  apply elem_of_cons in Hx as [->|Hx]; [apply less_irrefl|].
  apply less_asym. by eapply Forall_forall in Hall.
Qed.

Lemma StronglySorted_lt_last (d : list T) (back x : T) :
  StronglySorted lt_elem d → last d = Some back → x ∈ d → less back x = false.
Proof.
  intros Hs Hlast Hx. apply list_elem_of_lookup in Hx as [i Hi].
  rewrite last_lookup in Hlast.
  pose proof (lookup_lt_Some _ _ _ Hi) as Hlt.
  destruct (decide (i = pred (length d))) as [->|Hne].
  - assert (x = back) as -> by congruence. apply less_irrefl.
  - apply less_asym. apply (StronglySorted_lt_lookup d i (pred (length d))); [done..|lia].
Qed.

End SortedEnds.

(** X3: the statistics bound the column: when statistics are produced, the
    minimum and the maximum are values of rows that are not null, and no
    such value is below the minimum or above the maximum. *)
Theorem statistics_bound_values (data_type : DataType)
    (c : ValueColumn (type_of data_type)) :
  TotalOrder (type_of data_type) → wf_column c →
  ∃ dc stats,
    compress_column data_type (ValueColumnOf data_type c)
      = Ok (DictionaryColumnOf data_type dc, stats) ∧
    ∀ s, stats = Some (StatisticsOf data_type s) →
      stat_min s ∈ non_null_values c ∧
      stat_max s ∈ non_null_values c ∧
      ∀ v, v ∈ non_null_values c →
        less v (stat_min s) = false ∧ less (stat_max s) v = false.
Proof.
  intros Hord Hwf. rewrite compress_column_value.
  destruct (compress_value_column_total c) as (av & -> & _). simpl.
  eexists _, _. split; [done|].
  destruct (build_dictionary_spec c Hwf) as [Hs Hin].
  destruct (make_stats_spec (build_dictionary c)) as [_ Hminmax].
  intros s Hstats.
  destruct (make_stats (build_dictionary c)) as [s'|] eqn:Hmk; [|done].
  simpl in Hstats.
  assert (s' = s) as ->.
  { injection Hstats as Heq.
    by apply (Eqdep_dec.inj_pair2_eq_dec _ DataType_eq_dec) in Heq. }
  destruct (Hminmax s eq_refl) as [Hmin Hmax].
  split; [|split].
  - apply Hin. by apply head_Some_elem_of.
  - apply Hin. by apply last_Some_elem_of.
  - intros v Hv%Hin. split.
    + by eapply StronglySorted_lt_head.
    + by eapply StronglySorted_lt_last.
Qed.

Lemma statistics_bound_values_witness :
  wf_column nullable_int_column ∧
  ∃ dc stats,
    compress_column DataType.Int (ValueColumnOf DataType.Int nullable_int_column)
      = Ok (DictionaryColumnOf DataType.Int dc, stats) ∧
    ∀ s, stats = Some (StatisticsOf DataType.Int s) →
      stat_min s ∈ non_null_values nullable_int_column ∧
      stat_max s ∈ non_null_values nullable_int_column ∧
      ∀ v, v ∈ non_null_values nullable_int_column →
        less v (stat_min s) = false ∧ less (stat_max s) v = false.
Proof.
  split; [reflexivity|].
  apply (statistics_bound_values DataType.Int nullable_int_column Z_TotalOrder).
  reflexivity.
Defined.

(** X4: whatever the element type, no statistics are produced exactly when
    the column has no row that is not null (no rows at all, or null rows
    only). *)
Theorem statistics_absent_iff_all_null (data_type : DataType)
    (c : ValueColumn (type_of data_type)) :
  wf_column c →
  ∃ dc stats,
    compress_column data_type (ValueColumnOf data_type c)
      = Ok (DictionaryColumnOf data_type dc, stats) ∧
    (stats = None ↔ non_null_values c = []) ∧
    (dictionary dc = [] ↔ non_null_values c = []).
Proof.
  intros Hwf. rewrite compress_column_value.
  destruct (compress_value_column_total c) as (av & -> & _). simpl.
  eexists _, _. split; [done|]. simpl.
  pose proof (build_dictionary_nil c Hwf) as Hnil.
  split; [|done]. rewrite <- Hnil.
  destruct (build_dictionary c); simpl; split; done.
Qed.

Lemma statistics_absent_iff_all_null_witness :
  wf_column nullable_int_column ∧
  ∃ dc stats,
    compress_column DataType.Int (ValueColumnOf DataType.Int nullable_int_column)
      = Ok (DictionaryColumnOf DataType.Int dc, stats) ∧
    (stats = None ↔ non_null_values nullable_int_column = []) ∧
    (dictionary dc = [] ↔ non_null_values nullable_int_column = []).
Proof.
  split; [reflexivity|].
  apply (statistics_absent_iff_all_null DataType.Int nullable_int_column).
  reflexivity.
Defined.

(** X5: whatever the element type, NaN included, every dictionary entry is
    the value of a row that is not null, and the dictionary has at most as
    many entries as there are such rows. *)
Theorem dictionary_within_non_null_rows (data_type : DataType)
    (c : ValueColumn (type_of data_type)) :
  wf_column c →
  ∃ dc stats,
    compress_column data_type (ValueColumnOf data_type c)
      = Ok (DictionaryColumnOf data_type dc, stats) ∧
    (∀ x, x ∈ dictionary dc → x ∈ non_null_values c) ∧
    (length (dictionary dc) ≤ length (non_null_values c))%nat.
Proof.
  intros Hwf. rewrite compress_column_value.
  destruct (compress_value_column_total c) as (av & -> & _). simpl.
  eexists _, _. split; [done|]. simpl.
  pose proof (build_dictionary_submseteq c Hwf) as Hsub.
  split.
  - intros x Hx. by eapply elem_of_submseteq.
  - by apply submseteq_length.
Qed.

Lemma dictionary_within_non_null_rows_witness :
  wf_column nullable_float_column ∧
  ∃ dc stats,
    compress_column DataType.Double (ValueColumnOf DataType.Double nullable_float_column)
      = Ok (DictionaryColumnOf DataType.Double dc, stats) ∧
    (∀ x, x ∈ dictionary dc → x ∈ non_null_values nullable_float_column) ∧
    (length (dictionary dc) ≤ length (non_null_values nullable_float_column))%nat.
Proof.
  split; [reflexivity|].
  apply (dictionary_within_non_null_rows DataType.Double nullable_float_column).
  reflexivity.
Defined.

Section GetValueId.
Context {T : Type}.


End GetValueId.


Lemma compress_column_type_mismatch_aux (data_type data_type' : DataType)
    (c : ValueColumn (type_of data_type')) :
  data_type ≠ data_type' →
  compress_column data_type (ValueColumnOf data_type' c)
    = Err (AssertionFailure already_compressed).
Proof.
  intros Hne. unfold compress_column, ColumnCompressor_compress_column, as_ValueColumn.
  destruct (decide (data_type' = data_type)) as [->|_]; done.
Qed.

(** X7: a value column is compressed only under its own data type: asked
    for any other data type (a 32-bit column as a 64-bit one, say), the
    compressor fails with the assertion of its cast. *)
Theorem compress_column_type_mismatch (data_type data_type' : DataType)
    (c : ValueColumn (type_of data_type')) :
  data_type ≠ data_type' →
  compress_column data_type (ValueColumnOf data_type' c)
    = Err (AssertionFailure already_compressed).
Proof. apply compress_column_type_mismatch_aux. Qed.

Lemma compress_column_type_mismatch_witness :
  DataType.Long ≠ DataType.Int ∧
  compress_column DataType.Long (ValueColumnOf DataType.Int int_column)
    = Err (AssertionFailure already_compressed).
Proof.
  assert (DataType.Long ≠ DataType.Int) as Hne by discriminate.
  split; [exact Hne|].
  apply (compress_column_type_mismatch DataType.Long DataType.Int int_column Hne).
Defined.

(** ** Further properties of [compress_chunk], [compress_chunks] and
    [compress_table] *)

(** The loop over the columns can be cut at any column. *)
Lemma compress_columns_app (column_types : list DataType) (ids1 ids2 : list nat)
    (column_stats : ChunkStatistics) (chunk : Chunk) :
  compress_columns column_types (ids1 ++ ids2) column_stats chunk =
  match compress_columns column_types ids1 column_stats chunk with
  | (Ok column_stats', chunk') => compress_columns column_types ids2 column_stats' chunk'
  | (Err e, chunk') => (Err e, chunk')
  end.
Proof.
  revert column_stats chunk.
  induction ids1 as [|id ids1 IH]; intros column_stats chunk; simpl; [done|].
  destruct (get_mutable_column chunk id) as [column|]; [|done].
  destruct (column_types !! id) as [data_type|]; [|done].
  destruct (compress_column data_type column) as [[dict_column stats]|e]; [|done].
  destruct (replace_column id dict_column chunk) as [chunk'|e]; [|done].
  apply IH.
Qed.

Lemma compress_columns_step (column_types : list DataType) (column_id : nat)
    (column_ids : list nat) (column_stats : ChunkStatistics) (chunk : Chunk)
    (column : BaseColumn) (data_type : DataType) (dict_column : BaseColumn)
    (stats : option BaseChunkColumnStatistics) (chunk' : Chunk) :
  get_mutable_column chunk column_id = Some column →
  column_types !! column_id = Some data_type →
  compress_column data_type column = Ok (dict_column, stats) →
  replace_column column_id dict_column chunk = Ok chunk' →
  compress_columns column_types (column_id :: column_ids) column_stats chunk
  = compress_columns column_types column_ids (column_stats ++ [stats]) chunk'.
Proof. intros H1 H2 H3 H4. simpl. by rewrite H1, H2, H3, H4. Qed.

(** A value column compresses to a dictionary column of the same data type
    and the same number of rows. *)
Lemma compress_column_value_column (data_type : DataType) (column : BaseColumn) :
  is_value_column_of data_type column →
  ∃ res, compress_column data_type column = Ok res ∧
         is_dictionary_column_of data_type res.1 ∧
         column_size res.1 = column_size column.
Proof.
  intros [c ->]. rewrite compress_column_value.
  destruct (compress_value_column_total c) as (av & -> & _ & Hsize). simpl.
  eexists. split; [done|]. simpl. split; [by eexists|done].
Qed.

(** The loop over the value columns [rest] of a chunk, the columns [done]
    before them being through and the columns [suffix] not being visited. *)
Lemma compress_columns_values (column_types tdone trest : list DataType)
    (done rest suffix : list BaseColumn) (m : option MvccColumns)
    (s : option ChunkStatistics) (column_stats : ChunkStatistics) (n : nat) :
  tdone ++ trest `prefix_of` column_types →
  length tdone = length done →
  Forall2 is_value_column_of trest rest →
  Forall (λ column, column_size column = n) (done ++ rest) →
  ∃ results,
    Forall2 (λ (tc : DataType * BaseColumn) res,
               compress_column tc.1 tc.2 = Ok res ∧
               is_dictionary_column_of tc.1 res.1 ∧
               column_size res.1 = n) (zip trest rest) results ∧
    compress_columns column_types (seq (length done) (length rest)) column_stats
      (mkChunk (done ++ rest ++ suffix) m s)
    = (Ok (column_stats ++ results.*2), mkChunk (done ++ results.*1 ++ suffix) m s).
Proof.
  intros Hpre Hlen Hvals. revert tdone done column_stats Hpre Hlen.
  induction Hvals as [|data_type column trest rest Hcol Hvals IH];
    intros tdone done column_stats Hpre Hlen Hsizes.
  - exists []. split; [constructor|]. simpl. by rewrite app_nil_r.
  - destruct (compress_column_value_column data_type column Hcol)
      as ([dict_column stats] & Hc & Hdict & Hsize).
    simpl in Hdict, Hsize.
    assert (column_size column = n) as Hn.
    { apply Forall_app in Hsizes as [_ Hrest]. by apply Forall_cons in Hrest as [? _]. }
    assert (chunk_size (mkChunk (done ++ (column :: rest) ++ suffix) m s) = n) as Hchunk.
    { unfold chunk_size. simpl. destruct done as [|first done]; simpl; [done|].
      by apply Forall_cons in Hsizes as [? _]. }
    destruct (IH (tdone ++ [data_type]) (done ++ [dict_column]) (column_stats ++ [stats]))
      as (results & Hres & Hloop).
    { by rewrite <- (assoc_L (++)). }
    { rewrite !length_app. simpl. lia. }
    { rewrite <- (assoc_L (++)). simpl.
      apply Forall_app in Hsizes as [Hdone Hrest].
      apply Forall_cons in Hrest as [_ Hrest].
      apply Forall_app. split; [done|]. apply Forall_cons. split; [congruence|done]. }
    exists ((dict_column, stats) :: results). split.
    { constructor; [|done]. simpl. split; [done|]. split; [done|congruence]. }
    change (seq (length done) (length (column :: rest)))
      with (length done :: seq (S (length done)) (length rest)).
    rewrite (compress_columns_step column_types (length done) _ column_stats _
               column data_type dict_column stats
               (mkChunk ((done ++ [dict_column]) ++ rest ++ suffix) m s)).
    + rewrite length_app in Hloop. simpl in Hloop. rewrite Nat.add_1_r in Hloop.
      rewrite Hloop. simpl. by rewrite <- !(assoc_L (++)).
    + unfold get_mutable_column. simpl. by apply list_lookup_middle.
    + destruct Hpre as [k ->]. rewrite <- !(assoc_L (++)), <- Hlen.
      by apply list_lookup_middle.
    + done.
    + unfold replace_column. rewrite Hchunk.
      rewrite decide_True by congruence. simpl.
      rewrite insert_app_r_alt, Nat.sub_diag by lia. simpl.
      by rewrite <- !(assoc_L (++)).
Qed.

Lemma compress_column_not_value_column (data_type : DataType) (column : BaseColumn) :
  ¬ is_value_column_of data_type column →
  compress_column data_type column = Err (AssertionFailure already_compressed).
Proof.
  intros Hnot. destruct column as [data_type' c|data_type' dc]; [|done].
  destruct (decide (data_type = data_type')) as [->|Hne].
  - destruct Hnot. by exists c.
  - by apply compress_column_type_mismatch_aux.
Qed.

(** [compress_chunk] on a chunk of value columns: the results of
    [compress_column], column by column, become the columns and the
    statistics of the chunk. *)
Lemma compress_chunk_results (IS_DEBUG : bool) (column_types : list DataType)
    (chunk : Chunk) :
  value_chunk column_types chunk →
  ∃ results,
    Forall2 (λ (tc : DataType * BaseColumn) res,
               compress_column tc.1 tc.2 = Ok res ∧
               is_dictionary_column_of tc.1 res.1 ∧
               column_size res.1 = chunk_size chunk)
      (zip column_types (columns chunk)) results ∧
    compress_chunk IS_DEBUG column_types chunk
    = (Ok results.*2, mkChunk results.*1 (mvcc_columns chunk) (Some results.*2)).
Proof.
  intros [Hvals Hsizes]. destruct chunk as [cols m s]. simpl in *.
  set (n := chunk_size (mkChunk cols m s)) in *.
  destruct (compress_columns_values column_types [] column_types [] cols [] m s [] n)
    as (results & Hres & Hloop); [done..|].
  exists results. split; [done|].
  unfold compress_chunk, DebugAssert, Assert, column_count. simpl in *.
  rewrite bool_decide_eq_true_2 by (by eapply Forall2_length).
  rewrite !app_nil_r in Hloop. rewrite Hloop.
  unfold has_mvcc_columns, shrink_mvcc_columns, set_statistics. simpl.
  by destruct IS_DEBUG, m.
Qed.

Lemma Forall2_zip_lookup {A B C : Type} (R : A * B → C → Prop)
    (l1 : list A) (l2 : list B) (l3 : list C) (i : nat) (a : A) (b : B) :
  Forall2 R (zip l1 l2) l3 → l1 !! i = Some a → l2 !! i = Some b →
  ∃ c, l3 !! i = Some c ∧ R (a, b) c.
Proof.
  intros HR Ha Hb.
  assert (zip l1 l2 !! i = Some (a, b)) as Hzip.
  { rewrite lookup_zip_with, Ha. simpl. by rewrite Hb. }
  by eapply Forall2_lookup_l in HR.
Qed.

(** X8: on a chunk of value columns of the column types, all of the row
    count of the chunk, [compress_chunk] succeeds in either build: column
    [i] of the chunk becomes what [compress_column] returns for it, a
    dictionary column of type [i] with the same number of rows, entry [i] of
    the statistics returned is its statistics, and these statistics are
    installed in the chunk; the MVCC columns are as before. *)
Theorem compress_chunk_value_chunk (IS_DEBUG : bool) (column_types : list DataType)
    (chunk : Chunk) :
  value_chunk column_types chunk →
  ∃ stats chunk',
    compress_chunk IS_DEBUG column_types chunk = (Ok stats, chunk') ∧
    statistics chunk' = Some stats ∧
    mvcc_columns chunk' = mvcc_columns chunk ∧
    length stats = column_count chunk ∧
    column_count chunk' = column_count chunk ∧
    Forall2 is_dictionary_column_of column_types (columns chunk') ∧
    ∀ i data_type column,
      column_types !! i = Some data_type → columns chunk !! i = Some column →
      ∃ dict_column st,
        compress_column data_type column = Ok (dict_column, st) ∧
        columns chunk' !! i = Some dict_column ∧
        stats !! i = Some st ∧
        column_size dict_column = column_size column.
Proof.
  intros Hchunk.
  destruct (compress_chunk_results IS_DEBUG column_types chunk Hchunk)
    as (results & Hres & ->).
  destruct Hchunk as [Hvals Hsizes].
  pose proof (Forall2_length _ _ _ Hvals) as Hlen.
  pose proof (Forall2_length _ _ _ Hres) as Hlen'.
  rewrite length_zip_with in Hlen'.
  eexists _, _. split; [done|]. simpl. unfold column_count. simpl.
  rewrite !length_fmap.
  split; [done|]. split; [done|]. split; [lia|]. split; [lia|]. split.
  - apply Forall2_same_length_lookup. split; [rewrite length_fmap; lia|].
    intros i data_type dict_column Ht Hd.
    destruct (lookup_lt_is_Some_2 (columns chunk) i) as [column Hc].
    { rewrite <- Hlen. by eapply lookup_lt_Some. }
    destruct (Forall2_zip_lookup _ _ _ _ i _ _ Hres Ht Hc) as (res & Hr & _ & Hdict & _).
    rewrite list_lookup_fmap, Hr in Hd. simpl in *. by injection Hd as <-.
  - intros i data_type column Ht Hc.
    destruct (Forall2_zip_lookup _ _ _ _ i _ _ Hres Ht Hc)
      as ([dict_column st] & Hr & Hcomp & _ & Hsize).
    assert (results.*1 !! i = Some dict_column) as H1 by (by rewrite list_lookup_fmap, Hr).
    assert (results.*2 !! i = Some st) as H2 by (by rewrite list_lookup_fmap, Hr).
    simpl in Hcomp, Hsize. exists dict_column, st.
    split; [exact Hcomp|]. split; [exact H1|]. split; [exact H2|].
    rewrite Hsize. symmetry.
    eapply Forall_forall in Hsizes; [done|]. by eapply list_elem_of_lookup_2.
Qed.

Lemma two_column_chunk_value_chunk :
  value_chunk [DataType.Int; DataType.String] two_column_chunk.
Proof.
  split.
  - repeat constructor; by eexists.
  - repeat constructor.
Defined.

Lemma compress_chunk_value_chunk_witness :
  value_chunk [DataType.Int; DataType.String] two_column_chunk ∧
  ∃ stats chunk',
    compress_chunk true [DataType.Int; DataType.String] two_column_chunk
      = (Ok stats, chunk') ∧
    statistics chunk' = Some stats ∧
    mvcc_columns chunk' = mvcc_columns two_column_chunk ∧
    length stats = column_count two_column_chunk ∧
    column_count chunk' = column_count two_column_chunk ∧
    Forall2 is_dictionary_column_of [DataType.Int; DataType.String] (columns chunk') ∧
    ∀ i data_type column,
      [DataType.Int; DataType.String] !! i = Some data_type →
      columns two_column_chunk !! i = Some column →
      ∃ dict_column st,
        compress_column data_type column = Ok (dict_column, st) ∧
        columns chunk' !! i = Some dict_column ∧
        stats !! i = Some st ∧
        column_size dict_column = column_size column.
Proof.
  split; [exact two_column_chunk_value_chunk|].
  apply (compress_chunk_value_chunk true [DataType.Int; DataType.String] two_column_chunk
           two_column_chunk_value_chunk).
Defined.

(** X9: [compress_chunk] does not roll back.  When the columns before
    column [k] are value columns of their types and column [k] is not (it is
    a dictionary column, or of another type), the call fails at column [k]
    with the assertion of the cast; by then the columns before [k] have been
    replaced by dictionary columns, the others and the statistics of the
    chunk are as they were. *)
Theorem compress_chunk_stops_without_rollback (IS_DEBUG : bool)
    (tgood ttail : list DataType) (data_type : DataType)
    (good tail : list BaseColumn) (bad : BaseColumn)
    (m : option MvccColumns) (s : option ChunkStatistics) (n : nat) :
  Forall2 is_value_column_of tgood good →
  Forall (λ column, column_size column = n) good →
  ¬ is_value_column_of data_type bad →
  length ttail = length tail →
  ∃ good',
    compress_chunk IS_DEBUG (tgood ++ data_type :: ttail) (mkChunk (good ++ bad :: tail) m s)
    = (Err (AssertionFailure already_compressed), mkChunk (good' ++ bad :: tail) m s) ∧
    Forall2 is_dictionary_column_of tgood good' ∧
    Forall (λ column, column_size column = n) good'.
Proof.
  intros Hgood Hsizes Hbad Hlen.
  pose proof (Forall2_length _ _ _ Hgood) as Hlen_good.
  destruct (compress_columns_values (tgood ++ data_type :: ttail) [] tgood [] good
              (bad :: tail) m s [] n) as (results & Hres & Hloop).
  { by apply prefix_app_r. }
  { done. }
  { done. }
  { done. }
  simpl in Hloop.
  pose proof (Forall2_length _ _ _ Hres) as Hlen_res.
  rewrite length_zip_with in Hlen_res.
  exists results.*1. split; [|split].
  - unfold compress_chunk, DebugAssert, Assert, column_count. simpl.
    rewrite bool_decide_eq_true_2 by (rewrite !length_app; simpl; lia).
    rewrite length_app. simpl.
    rewrite seq_app, compress_columns_app, Hloop. simpl.
    unfold get_mutable_column. simpl.
    assert (length good = length results.*1) as -> by (rewrite length_fmap; lia).
    rewrite list_lookup_middle by done.
    assert ((tgood ++ data_type :: ttail) !! length results.*1 = Some data_type) as ->.
    { apply list_lookup_middle. rewrite length_fmap. lia. }
    rewrite (compress_column_not_value_column _ _ Hbad).
    by destruct IS_DEBUG.
  - apply Forall2_same_length_lookup. split; [rewrite length_fmap; lia|].
    intros i dt dict_column Ht Hd.
    destruct (lookup_lt_is_Some_2 good i) as [column Hc].
    { rewrite <- Hlen_good. by eapply lookup_lt_Some. }
    destruct (Forall2_zip_lookup _ _ _ _ i _ _ Hres Ht Hc) as (res & Hr & _ & Hdict & _).
    rewrite list_lookup_fmap, Hr in Hd. simpl in *. by injection Hd as <-.
  - apply Forall_fmap. eapply Forall2_Forall_r; [done|].
    apply Forall_true. intros tc res (_ & _ & Hsize). done.
Qed.

Lemma compress_chunk_stops_without_rollback_witness :
  ∃ good',
    compress_chunk true ([DataType.Int] ++ DataType.Int :: [])
      (mkChunk ([ValueColumnOf DataType.Int int_column]
                ++ DictionaryColumnOf DataType.Int compressed_int_column :: []) None None)
    = (Err (AssertionFailure already_compressed),
       mkChunk (good' ++ DictionaryColumnOf DataType.Int compressed_int_column :: [])
         None None) ∧
    Forall2 is_dictionary_column_of [DataType.Int] good' ∧
    Forall (λ column, column_size column = 5%nat) good'.
Proof.
  apply (compress_chunk_stops_without_rollback true [DataType.Int] [] DataType.Int
           [ValueColumnOf DataType.Int int_column] []
           (DictionaryColumnOf DataType.Int compressed_int_column) None None 5).
  - repeat constructor. by eexists.
  - repeat constructor.
  - intros [c Hc]. discriminate Hc.
  - reflexivity.
Defined.

(** X10: [compress_table] is [compress_chunks] on the chunk ids of the
    table in ascending order: the assertion on the chunk id never fires for
    them. *)
Theorem compress_table_as_compress_chunks (IS_DEBUG : bool) (table : Table)
    (store : gmap ChunkPtr Chunk) :
  compress_table IS_DEBUG table store
  = compress_chunks IS_DEBUG table (N.of_nat <$> seq 0 (chunk_count table)) [] store.
Proof.
  unfold compress_table.
  assert (∀ m k chunk_stats store,
    (k + m ≤ chunk_count table)%nat →
    compress_table_loop IS_DEBUG table (seq k m) chunk_stats store
    = compress_chunks IS_DEBUG table (N.of_nat <$> seq k m) chunk_stats store) as Hloop.
  { clear store. induction m as [|m IH]; intros k chunk_stats store Hk; simpl; [done|].
    unfold Assert. rewrite bool_decide_eq_true_2 by lia. rewrite Nat2N.id.
    destruct (get_chunk table k) as [chunk|]; [|done].
    destruct (compress_chunk_at IS_DEBUG (column_types table) chunk store)
      as [[stats|e] store']; [|done].
    apply IH. lia. }
  by apply Hloop.
Qed.

(** The list of chunk ids can be cut anywhere. *)
Lemma compress_chunks_app (IS_DEBUG : bool) (table : Table) (ids1 ids2 : list ChunkID)
    (chunk_stats : list ChunkStatistics) (store : gmap ChunkPtr Chunk) :
  compress_chunks IS_DEBUG table (ids1 ++ ids2) chunk_stats store =
  match compress_chunks IS_DEBUG table ids1 chunk_stats store with
  | (Ok chunk_stats', store') => compress_chunks IS_DEBUG table ids2 chunk_stats' store'
  | (Err e, store') => (Err e, store')
  end.
Proof.
  revert chunk_stats store.
  induction ids1 as [|id ids1 IH]; intros chunk_stats store; simpl; [done|].
  destruct (Assert _ _) as [[]|e]; [|done].
  destruct (get_chunk table (N.to_nat id)) as [chunk|]; [|done].
  destruct (compress_chunk_at IS_DEBUG (column_types table) chunk store)
    as [[stats|e] store']; [|done].
  apply IH.
Qed.

(** The statistics collected so far are only added to. *)
Lemma compress_chunks_acc (IS_DEBUG : bool) (table : Table) (ids : list ChunkID)
    (chunk_stats : list ChunkStatistics) (store : gmap ChunkPtr Chunk) :
  compress_chunks IS_DEBUG table ids chunk_stats store =
  match compress_chunks IS_DEBUG table ids [] store with
  | (Ok new_stats, store') => (Ok (chunk_stats ++ new_stats), store')
  | (Err e, store') => (Err e, store')
  end.
Proof.
  revert chunk_stats store.
  induction ids as [|id ids IH]; intros chunk_stats store; simpl.
  - by rewrite app_nil_r.
  - destruct (Assert _ _) as [[]|e]; [|done].
    destruct (get_chunk table (N.to_nat id)) as [chunk|]; [|done].
    destruct (compress_chunk_at IS_DEBUG (column_types table) chunk store)
      as [[stats|e] store']; [|done].
    rewrite (IH (chunk_stats ++ [stats])), (IH ([] ++ [stats])).
    destruct (compress_chunks IS_DEBUG table ids [] store') as [[new_stats|e] store''];
      [|done].
    by rewrite <- (assoc_L (++)).
Qed.

(** X11: compressing the chunks of a list of ids in one call is compressing
    those of a first part of the list and then, on the store this leaves,
    those of the rest: the statistics are those of the two calls one after
    the other, and an exception in either call ends with the store as that
    call left it. *)
Theorem compress_chunks_in_batches (IS_DEBUG : bool) (table : Table)
    (ids1 ids2 : list ChunkID) (store : gmap ChunkPtr Chunk) :
  compress_chunks IS_DEBUG table (ids1 ++ ids2) [] store =
  match compress_chunks IS_DEBUG table ids1 [] store with
  | (Ok stats1, store1) =>
      match compress_chunks IS_DEBUG table ids2 [] store1 with
      | (Ok stats2, store2) => (Ok (stats1 ++ stats2), store2)
      | (Err e, store2) => (Err e, store2)
      end
  | (Err e, store1) => (Err e, store1)
  end.
Proof.
  rewrite compress_chunks_app.
  destruct (compress_chunks IS_DEBUG table ids1 [] store) as [[stats1|e] store1]; [|done].
  apply compress_chunks_acc.
Qed.

(** X12: a chunk id that is not below [chunk_count] ends [compress_chunks]
    with the assertion "Chunk with given ID does not exist."; the chunks of
    the ids before it have been compressed by then and stay so, those of the
    ids after it are not visited. *)
Theorem compress_chunks_unknown_chunk (IS_DEBUG : bool) (table : Table)
    (ids_before ids_after : list ChunkID) (chunk_id : ChunkID)
    (store : gmap ChunkPtr Chunk) :
  N.of_nat (chunk_count table) ≤ chunk_id →
  compress_chunks IS_DEBUG table (ids_before ++ chunk_id :: ids_after) [] store =
  match compress_chunks IS_DEBUG table ids_before [] store with
  | (Ok _, store') =>
      (Err (AssertionFailure "Chunk with given ID does not exist."), store')
  | (Err e, store') => (Err e, store')
  end.
Proof.
  intros Hid. rewrite compress_chunks_app.
  destruct (compress_chunks IS_DEBUG table ids_before [] store)
    as [[chunk_stats|e] store']; [|done].
  simpl. unfold Assert. rewrite bool_decide_eq_false_2 by lia. done.
Qed.

Lemma compress_chunks_unknown_chunk_witness :
  N.of_nat (chunk_count four_chunk_table) ≤ 4 ∧
  compress_chunks true four_chunk_table ([0] ++ 4 :: [1]) [] (chunk_store four_chunk_store) =
  match compress_chunks true four_chunk_table [0] [] (chunk_store four_chunk_store) with
  | (Ok _, store') =>
      (Err (AssertionFailure "Chunk with given ID does not exist."), store')
  | (Err e, store') => (Err e, store')
  end.
Proof.
  assert (N.of_nat (chunk_count four_chunk_table) ≤ 4) as Hid by (vm_compute; discriminate).
  split; [exact Hid|].
  apply (compress_chunks_unknown_chunk true four_chunk_table [0] [1] 4
           (chunk_store four_chunk_store) Hid).
Defined.

(** What [compress_chunk] leaves of a chunk of value columns is a chunk of
    dictionary columns that it rejects. *)
Lemma compress_chunk_then_rejected (IS_DEBUG IS_DEBUG' : bool)
    (column_types : list DataType) (chunk chunk' : Chunk) (stats : ChunkStatistics) :
  value_chunk column_types chunk → columns chunk ≠ [] →
  compress_chunk IS_DEBUG column_types chunk = (Ok stats, chunk') →
  compress_chunk IS_DEBUG' column_types chunk'
  = (Err (AssertionFailure already_compressed), chunk').
Proof.
  intros Hchunk Hne Hc.
  destruct (compress_chunk_results IS_DEBUG column_types chunk Hchunk)
    as (results & Hres & Hc').
  rewrite Hc in Hc'. injection Hc' as -> ->.
  destruct Hchunk as [Hvals _].
  pose proof (Forall2_length _ _ _ Hvals) as Hlen.
  pose proof (Forall2_length _ _ _ Hres) as Hlen'.
  rewrite length_zip_with in Hlen'.
  destruct (columns chunk) as [|column cols] eqn:Hcols; [done|].
  destruct column_types as [|data_type column_types]; [done|].
  destruct results as [|[dict_column st] results]; [done|].
  apply Forall2_cons in Hres as [(_ & [dc Hdc] & _) _].
  simpl in Hdc. subst dict_column.
  eapply compress_chunk_already_compressed; [simpl; reflexivity|].
  unfold column_count. simpl in *. rewrite length_fmap. lia.
Qed.


Lemma one_column_chunk_value_chunk :
  value_chunk (column_types one_chunk_table) one_column_chunk.
Proof.
  split.
  - repeat constructor. by eexists.
  - repeat constructor.
Defined.


(** The loop of [compress_table] over chunks of value columns at distinct
    locations. *)
Lemma compress_table_loop_values (IS_DEBUG : bool) (table : Table)
    (rest : list ChunkPtr) (k : nat) (chunk_stats : list ChunkStatistics)
    (store : gmap ChunkPtr Chunk) :
  (∀ j p, rest !! j = Some p → chunks table !! (k + j)%nat = Some p) →
  NoDup rest →
  (∀ p, p ∈ rest → ∃ chunk, store !! p = Some chunk ∧
                            value_chunk (column_types table) chunk) →
  ∃ stats store',
    compress_table_loop IS_DEBUG table (seq k (length rest)) chunk_stats store
    = (Ok (chunk_stats ++ stats), store') ∧
    length stats = length rest ∧
    (∀ j p, rest !! j = Some p →
       ∃ chunk st chunk',
         store !! p = Some chunk ∧
         compress_chunk IS_DEBUG (column_types table) chunk = (Ok st, chunk') ∧
         store' !! p = Some chunk' ∧ stats !! j = Some st) ∧
    (∀ q, q ∉ rest → store' !! q = store !! q).
Proof.
  revert k chunk_stats store.
  induction rest as [|p rest IH]; intros k chunk_stats store Hids Hnodup Hchunks.
  - exists [], store. simpl. rewrite app_nil_r. done.
  - apply NoDup_cons in Hnodup as [Hp Hnodup].
    destruct (Hchunks p) as (chunk & Hstore & Hchunk); [left|].
    destruct (compress_chunk_results IS_DEBUG (column_types table) chunk Hchunk)
      as (results & _ & Hc).
    set (chunk' := mkChunk results.*1 (mvcc_columns chunk) (Some results.*2)) in *.
    destruct (IH (S k) (chunk_stats ++ [results.*2]) (<[p := chunk']> store))
      as (stats & store' & Hloop & Hlen & Hdone & Hother).
    { intros j q Hq. replace (S k + j)%nat with (k + S j)%nat by lia. by apply Hids. }
    { done. }
    { intros q Hq. destruct (Hchunks q) as (c & Hc1 & Hc2); [by right|].
      exists c. split; [|done]. rewrite lookup_insert_ne; [done|].
      intros ->. done. }
    exists (results.*2 :: stats), store'. split; [|split; [|split]].
    + assert (get_chunk table k = Some p) as Hget.
      { unfold get_chunk. rewrite <- (Nat.add_0_r k). by apply Hids. }
      simpl. rewrite Hget.
      unfold compress_chunk_at. rewrite Hstore, Hc.
      rewrite <- (assoc_L (++)) in Hloop. exact Hloop.
    + simpl. by rewrite Hlen.
    + intros [|j] q Hq; simpl in Hq.
      * injection Hq as <-. exists chunk, results.*2, chunk'.
        split; [done|]. split; [done|]. split; [|done].
        rewrite Hother by done. apply lookup_insert_eq.
      * destruct (Hdone j q Hq) as (c & st & c' & Hc1 & Hc2 & Hc3 & Hc4).
        exists c, st, c'. split; [|done].
        rewrite lookup_insert_ne in Hc1; [done|].
        intros ->. apply Hp. by eapply list_elem_of_lookup_2.
    + intros q Hq. apply not_elem_of_cons in Hq as [Hqp Hq].
      rewrite Hother by done. by rewrite lookup_insert_ne.
Qed.

Lemma compress_chunk_Ok_dictionary (IS_DEBUG : bool) (column_types : list DataType)
    (chunk chunk' : Chunk) (stats : ChunkStatistics) :
  value_chunk column_types chunk →
  compress_chunk IS_DEBUG column_types chunk = (Ok stats, chunk') →
  statistics chunk' = Some stats ∧
  Forall2 is_dictionary_column_of column_types (columns chunk').
Proof.
  intros Hchunk Hc.
  destruct (compress_chunk_results IS_DEBUG column_types chunk Hchunk)
    as (results & Hres & Hc').
  rewrite Hc in Hc'. injection Hc' as -> ->. simpl. split; [done|].
  destruct Hchunk as [Hvals _]. clear Hc.
  revert Hvals Hres. generalize (columns chunk). intros cols.
  revert column_types results. induction cols as [|column cols IH];
    intros column_types results Hvals Hres.
  - apply Forall2_nil_inv_r in Hvals as ->. simpl in Hres.
    apply Forall2_nil_inv_l in Hres as ->. constructor.
  - apply Forall2_cons_inv_r in Hvals as (data_type & types & Hcol & Hvals & ->).
    simpl in Hres.
    apply Forall2_cons_inv_l in Hres as (res & results' & (_ & Hdict & _) & Hres & ->).
    simpl. constructor; [done|]. by apply IH.
Qed.

(** X14: on a table whose chunks are chunks of value columns of the column
    types of the table, held at distinct locations, [compress_table]
    succeeds: it returns one statistics entry per chunk, in the order of the
    chunk ids, every chunk of the table is replaced in the store by what
    [compress_chunk] makes of it (dictionary columns throughout, the
    statistics installed), and no other chunk of the store is touched. *)
Theorem compress_table_value_chunks (IS_DEBUG : bool) (table : Table)
    (store : gmap ChunkPtr Chunk) :
  NoDup (chunks table) →
  (∀ p, p ∈ chunks table →
     ∃ chunk, store !! p = Some chunk ∧ value_chunk (column_types table) chunk) →
  ∃ stats store',
    compress_table IS_DEBUG table store = (Ok stats, store') ∧
    length stats = chunk_count table ∧
    (∀ i p, get_chunk table i = Some p →
       ∃ chunk st chunk',
         store !! p = Some chunk ∧
         compress_chunk IS_DEBUG (column_types table) chunk = (Ok st, chunk') ∧
         store' !! p = Some chunk' ∧
         stats !! i = Some st ∧
         statistics chunk' = Some st ∧
         Forall2 is_dictionary_column_of (column_types table) (columns chunk')) ∧
    (∀ q, q ∉ chunks table → store' !! q = store !! q).
Proof.
  intros Hnodup Hchunks.
  destruct (compress_table_loop_values IS_DEBUG table (chunks table) 0 [] store)
    as (stats & store' & Hloop & Hlen & Hdone & Hother); [done..|].
  exists stats, store'. split; [exact Hloop|]. split; [exact Hlen|]. split; [|done].
  intros i p Hp. destruct (Hdone i p Hp) as (chunk & st & chunk' & H1 & H2 & H3 & H4).
  exists chunk, st, chunk'.
  destruct (Hchunks p) as (chunk0 & Hc0 & Hvalue); [by eapply list_elem_of_lookup_2|].
  assert (chunk0 = chunk) as -> by congruence.
  destruct (compress_chunk_Ok_dictionary _ _ _ _ _ Hvalue H2) as [H5 H6].
  done.
Qed.

Lemma one_chunk_table_value_chunks :
  ∀ p, p ∈ chunks one_chunk_table →
    ∃ chunk, value_store !! p = Some chunk ∧
             value_chunk (column_types one_chunk_table) chunk.
Proof.
  intros p Hp. apply list_elem_of_singleton in Hp as ->.
  exists one_column_chunk. split; [reflexivity|exact one_column_chunk_value_chunk].
Defined.

Lemma one_chunk_table_NoDup : NoDup (chunks one_chunk_table).
Proof. apply NoDup_singleton. Defined.

Lemma compress_table_value_chunks_witness :
  ∃ stats store',
    compress_table true one_chunk_table value_store = (Ok stats, store') ∧
    length stats = chunk_count one_chunk_table ∧
    (∀ i p, get_chunk one_chunk_table i = Some p →
       ∃ chunk st chunk',
         value_store !! p = Some chunk ∧
         compress_chunk true (column_types one_chunk_table) chunk = (Ok st, chunk') ∧
         store' !! p = Some chunk' ∧
         stats !! i = Some st ∧
         statistics chunk' = Some st ∧
         Forall2 is_dictionary_column_of (column_types one_chunk_table) (columns chunk')) ∧
    (∀ q, q ∉ chunks one_chunk_table → store' !! q = value_store !! q).
Proof.
  apply (compress_table_value_chunks true one_chunk_table value_store
           one_chunk_table_NoDup one_chunk_table_value_chunks).
Defined.

(** X15: compressing a table twice fails the second time.  After a
    successful [compress_table] on a table of value chunks whose first chunk
    has a column, a second [compress_table] ends at once with the assertion
    of the cast and leaves the store as the first call made it. *)
Theorem compress_table_twice (IS_DEBUG IS_DEBUG' : bool) (table : Table)
    (store : gmap ChunkPtr Chunk) (first : ChunkPtr) (others : list ChunkPtr)
    (chunk : Chunk) :
  NoDup (chunks table) →
  (∀ p, p ∈ chunks table →
     ∃ chunk, store !! p = Some chunk ∧ value_chunk (column_types table) chunk) →
  chunks table = first :: others →
  store !! first = Some chunk → columns chunk ≠ [] →
  ∃ stats store',
    compress_table IS_DEBUG table store = (Ok stats, store') ∧
    compress_table IS_DEBUG' table store'
    = (Err (AssertionFailure already_compressed), store').
Proof.
  intros Hnodup Hchunks Hfirst Hstore Hne.
  destruct (compress_table_loop_values IS_DEBUG table (chunks table) 0 [] store)
    as (stats & store' & Hloop & Hlen & Hdone & Hother); [done..|].
  exists stats, store'. split; [exact Hloop|].
  destruct (Hdone 0%nat first) as (chunk0 & st & chunk' & H1 & H2 & H3 & H4).
  { by rewrite Hfirst. }
  assert (chunk0 = chunk) as -> by congruence.
  destruct (Hchunks first) as (chunk0 & Hc0 & Hvalue); [rewrite Hfirst; left|].
  assert (chunk0 = chunk) as -> by congruence.
  pose proof (compress_chunk_then_rejected IS_DEBUG IS_DEBUG' _ _ _ _ Hvalue Hne H2)
    as Hrej.
  unfold compress_table, chunk_count. rewrite Hfirst. simpl.
  unfold get_chunk. rewrite Hfirst. simpl.
  unfold compress_chunk_at. rewrite H3, Hrej. by rewrite insert_id.
Qed.

Lemma compress_table_twice_witness :
  ∃ stats store',
    compress_table true one_chunk_table value_store = (Ok stats, store') ∧
    compress_table false one_chunk_table store'
    = (Err (AssertionFailure already_compressed), store').
Proof.
  apply (compress_table_twice true false one_chunk_table value_store 1%positive []
           one_column_chunk one_chunk_table_NoDup one_chunk_table_value_chunks).
  - reflexivity.
  - reflexivity.
  - discriminate.
Defined.

(** ** Further properties of [GetTable] *)

(** What [_on_execute] returns when chunks are listed for exclusion. *)
Lemma on_execute_pruned (op : GetTable) (store : Store) (original_ptr : TablePtr)
    (original : Table) (excluded : list ChunkID) :
  storage_manager store !! _name op = Some original_ptr →
  table_store store !! original_ptr = Some original →
  _excluded_chunks op = Some excluded → excluded ≠ [] →
  _on_execute op store =
  (Ok (fresh (dom (table_store store))),
   {| chunk_store := chunk_store store;
      table_store :=
        <[fresh (dom (table_store store)) :=
            {| schema := schema original;
               max_chunk_size := max_chunk_size original;
               chunks := retained_chunks (list_to_set excluded) 0 (chunks original) |}]>
          (table_store store);
      storage_manager := storage_manager store |}).
Proof.
  intros Hreg Htable Hexcl Hne. unfold _on_execute, get_table.
  rewrite Hreg, Hexcl, Htable.
  destruct excluded as [|id excluded]; [done|].
  set (X := list_to_set (id :: excluded) : gset ChunkID).
  pose proof (prune_chunks_spec original X [] (chunks original)
                (create_with_layout_from original (max_chunk_size original)) eq_refl)
    as Hloop.
  simpl in Hloop. unfold chunk_count. by rewrite Hloop.
Qed.

(** Only the excluded ids that are ids of the chunk sequence matter. *)
Lemma retained_chunks_ext (X Y : gset ChunkID) (first_id : nat) (chunks : list ChunkPtr) :
  (∀ i, (first_id ≤ i < first_id + length chunks)%nat →
        N.of_nat i ∈ X ↔ N.of_nat i ∈ Y) →
  retained_chunks X first_id chunks = retained_chunks Y first_id chunks.
Proof.
  unfold retained_chunks. revert first_id.
  induction chunks as [|c chunks IH]; intros first_id Hiff; simpl; [done|].
  assert (N.of_nat first_id ∈ X ↔ N.of_nat first_id ∈ Y) as Hfirst.
  { apply Hiff. simpl. lia. }
  assert (∀ i, (S first_id ≤ i < S first_id + length chunks)%nat →
               N.of_nat i ∈ X ↔ N.of_nat i ∈ Y) as Hrest.
  { intros i Hi. apply Hiff. simpl. lia. }
  destruct (decide (N.of_nat first_id ∈ X)) as [Hin|Hin].
  - rewrite !filter_cons_False by (simpl; tauto). by apply IH.
  - rewrite !filter_cons_True by (simpl; tauto). simpl. f_equal. by apply IH.
Qed.

Lemma retained_chunks_elem_of (X : gset ChunkID) (first_id : nat)
    (chunks : list ChunkPtr) (p : ChunkPtr) :
  p ∈ retained_chunks X first_id chunks ↔
  ∃ i, chunks !! i = Some p ∧ N.of_nat (first_id + i) ∉ X.
Proof.
  unfold retained_chunks. revert first_id.
  induction chunks as [|c chunks IH]; intros first_id; simpl.
  - split; [by intros ?%elem_of_nil|]. by intros (i & ? & _).
  - destruct (decide (N.of_nat first_id ∈ X)) as [Hin|Hin].
    + rewrite filter_cons_False by (simpl; tauto). rewrite IH. split.
      * intros (i & Hi & Hx). exists (S i). split; [done|].
        by replace (first_id + S i)%nat with (S first_id + i)%nat by lia.
      * intros ([|i] & Hi & Hx); simpl in Hi.
        { by rewrite Nat.add_0_r in Hx. }
        exists i. split; [done|].
        by replace (S first_id + i)%nat with (first_id + S i)%nat by lia.
    + rewrite filter_cons_True by done. simpl. rewrite elem_of_cons, IH. split.
      * intros [->|(i & Hi & Hx)].
        { exists 0%nat. split; [done|]. by rewrite Nat.add_0_r. }
        exists (S i). split; [done|].
        by replace (first_id + S i)%nat with (S first_id + i)%nat by lia.
      * intros ([|i] & Hi & Hx); simpl in Hi.
        { left. congruence. }
        right. exists i. split; [done|].
        by replace (S first_id + i)%nat with (first_id + S i)%nat by lia.
Qed.

(** X16: the view depends on the excluded ids as a set, and only on those
    that are ids of chunks of the table: two operators on the same table
    whose exclusion lists hold the same ids below [chunk_count], in whatever
    order, however often, and whatever ids beyond, return the same result. *)
Theorem pruning_depends_on_valid_id_set (op1 op2 : GetTable) (store : Store)
    (original_ptr : TablePtr) (original : Table) (excluded1 excluded2 : list ChunkID) :
  _name op1 = _name op2 →
  storage_manager store !! _name op1 = Some original_ptr →
  table_store store !! original_ptr = Some original →
  _excluded_chunks op1 = Some excluded1 → excluded1 ≠ [] →
  _excluded_chunks op2 = Some excluded2 → excluded2 ≠ [] →
  (∀ id, id < N.of_nat (chunk_count original) → id ∈ excluded1 ↔ id ∈ excluded2) →
  _on_execute op1 store = _on_execute op2 store.
Proof.
  intros Hname Hreg Htable Hex1 Hne1 Hex2 Hne2 Hiff.
  rewrite (on_execute_pruned op1 store original_ptr original excluded1) by done.
  rewrite (on_execute_pruned op2 store original_ptr original excluded2)
    by (done || by rewrite <- Hname).
  do 4 f_equal. apply retained_chunks_ext. intros i Hi.
  rewrite !elem_of_list_to_set. apply Hiff. unfold chunk_count. lia.
Qed.

Lemma pruning_depends_on_valid_id_set_witness :
  _on_execute (set_excluded_chunks [1; 3] (GetTable_new "t")) four_chunk_store
  = _on_execute (set_excluded_chunks [3; 9; 1; 3] (GetTable_new "t")) four_chunk_store.
Proof.
  apply (pruning_depends_on_valid_id_set
           (set_excluded_chunks [1; 3] (GetTable_new "t"))
           (set_excluded_chunks [3; 9; 1; 3] (GetTable_new "t"))
           four_chunk_store 7%positive four_chunk_table [1; 3] [3; 9; 1; 3]).
  - reflexivity.
  - reflexivity.
  - reflexivity.
  - reflexivity.
  - discriminate.
  - reflexivity.
  - discriminate.
  - intros id Hid. rewrite !elem_of_cons, !elem_of_nil.
    change (N.of_nat (chunk_count four_chunk_table)) with 4 in Hid. lia.
Defined.

(** X17: a non-empty exclusion list that names no chunk of the table still
    makes a copy: the result is a new table, at a location other than that
    of the original, equal to the original in schema, [max_chunk_size] and
    chunk sequence. *)
Theorem nothing_pruned_still_copies (op : GetTable) (store : Store)
    (original_ptr : TablePtr) (original : Table) (excluded : list ChunkID) :
  storage_manager store !! _name op = Some original_ptr →
  table_store store !! original_ptr = Some original →
  _excluded_chunks op = Some excluded → excluded ≠ [] →
  (∀ id, id ∈ excluded → N.of_nat (chunk_count original) ≤ id) →
  ∃ pruned_ptr store',
    _on_execute op store = (Ok pruned_ptr, store') ∧
    pruned_ptr ≠ original_ptr ∧
    table_store store' !! pruned_ptr = Some original ∧
    table_store store' !! original_ptr = Some original.
Proof.
  intros Hreg Htable Hexcl Hne Hout.
  rewrite (on_execute_pruned op store original_ptr original excluded) by done.
  set (p := fresh (dom (table_store store))).
  assert (table_store store !! p = None) as Hfresh.
  { apply not_elem_of_dom, is_fresh. }
  assert (p ≠ original_ptr) as Hp by congruence.
  eexists _, _. split; [done|]. simpl. split; [done|]. split.
  - rewrite lookup_insert_eq. f_equal.
    rewrite (retained_chunks_ext _ ∅ 0 (chunks original)).
    + assert (retained_chunks ∅ 0 (chunks original) = chunks original) as ->.
      { unfold retained_chunks. generalize 0%nat.
        induction (chunks original) as [|c l IH]; intros k; simpl; [done|].
        rewrite filter_cons_True by (simpl; apply not_elem_of_empty).
        simpl. f_equal. apply IH. }
      by destruct original.
    + intros i Hi. split; [|by intros ?%not_elem_of_empty].
      intros Hin%elem_of_list_to_set. apply Hout in Hin.
      unfold chunk_count in Hin. lia.
  - by rewrite lookup_insert_ne.
Qed.

Lemma nothing_pruned_still_copies_witness :
  ∃ pruned_ptr store',
    _on_execute (set_excluded_chunks [7; 4] (GetTable_new "t")) four_chunk_store
      = (Ok pruned_ptr, store') ∧
    pruned_ptr ≠ 7%positive ∧
    table_store store' !! pruned_ptr = Some four_chunk_table ∧
    table_store store' !! 7%positive = Some four_chunk_table.
Proof.
  apply (nothing_pruned_still_copies (set_excluded_chunks [7; 4] (GetTable_new "t"))
           four_chunk_store 7%positive four_chunk_table [7; 4]).
  - reflexivity.
  - reflexivity.
  - reflexivity.
  - discriminate.
  - intros id Hid. rewrite !elem_of_cons, elem_of_nil in Hid.
    change (N.of_nat (chunk_count four_chunk_table)) with 4. lia.
Defined.

(** X18: the chunks of the view are the chunks the original holds at the
    ids that are not listed, and no others; when every chunk id of the table
    is listed the view is a table without chunks. *)
Theorem pruned_view_members (op : GetTable) (store : Store)
    (original_ptr : TablePtr) (original : Table) (excluded : list ChunkID) :
  storage_manager store !! _name op = Some original_ptr →
  table_store store !! original_ptr = Some original →
  _excluded_chunks op = Some excluded → excluded ≠ [] →
  ∃ pruned_ptr store' pruned,
    _on_execute op store = (Ok pruned_ptr, store') ∧
    table_store store' !! pruned_ptr = Some pruned ∧
    (∀ p, p ∈ chunks pruned ↔
          ∃ i, get_chunk original i = Some p ∧ N.of_nat i ∉ excluded) ∧
    ((∀ i, (i < chunk_count original)%nat → N.of_nat i ∈ excluded) →
     chunks pruned = []).
Proof.
  intros Hreg Htable Hexcl Hne.
  rewrite (on_execute_pruned op store original_ptr original excluded) by done.
  eexists _, _, _. split; [done|]. simpl. split; [apply lookup_insert_eq|]. simpl.
  assert (∀ p, p ∈ retained_chunks (list_to_set excluded) 0 (chunks original) ↔
               ∃ i, get_chunk original i = Some p ∧ N.of_nat i ∉ excluded) as Hmem.
  { intros p. rewrite retained_chunks_elem_of. unfold get_chunk.
    split; intros (i & Hi & Hx); exists i; (split; [done|]);
      simpl in *; by rewrite elem_of_list_to_set in *. }
  split; [done|]. intros Hall. apply elem_of_nil_inv. intros p Hp.
  apply Hmem in Hp as (i & Hi & Hx). apply Hx, Hall.
  unfold chunk_count. by eapply lookup_lt_Some.
Qed.

Lemma pruned_view_members_witness :
  ∃ pruned_ptr store' pruned,
    _on_execute pruning_operator four_chunk_store = (Ok pruned_ptr, store') ∧
    table_store store' !! pruned_ptr = Some pruned ∧
    (∀ p, p ∈ chunks pruned ↔
          ∃ i, get_chunk four_chunk_table i = Some p ∧ N.of_nat i ∉ [1; 3]) ∧
    ((∀ i, (i < chunk_count four_chunk_table)%nat → N.of_nat i ∈ [1; 3]) →
     chunks pruned = []).
Proof.
  apply (pruned_view_members pruning_operator four_chunk_store 7%positive
           four_chunk_table [1; 3]).
  - reflexivity.
  - reflexivity.
  - reflexivity.
  - discriminate.
Defined.

Lemma excluded_valid_size_le (excluded : list ChunkID) (n : nat) :
  (size (list_to_set excluded ∩ valid_chunk_ids n : gset ChunkID) ≤ length excluded)%nat.
Proof.
  rewrite excluded_valid_size.
  set (ids := filter (λ i, N.of_nat i ∈ (list_to_set excluded : gset ChunkID)) (seq 0 n)).
  rewrite <- (length_fmap N.of_nat ids).
  apply submseteq_length, NoDup_submseteq.
  - apply NoDup_fmap_2; [apply _|]. apply NoDup_filter, NoDup_seq.
  - intros id (i & -> & [Hin _]%list_elem_of_filter)%list_elem_of_fmap.
    by apply elem_of_list_to_set in Hin.
Qed.

Lemma excluded_valid_size_eq (excluded : list ChunkID) (n : nat) :
  NoDup excluded → (∀ id, id ∈ excluded → id < N.of_nat n) →
  size (list_to_set excluded ∩ valid_chunk_ids n : gset ChunkID) = length excluded.
Proof.
  intros Hnodup Hvalid.
  assert (list_to_set excluded ∩ valid_chunk_ids n = (list_to_set excluded : gset ChunkID))
    as ->.
  { apply set_eq. intros id. rewrite elem_of_intersection. split; [by intros [? _]|].
    intros Hin. split; [done|]. apply elem_of_list_to_set in Hin.
    unfold valid_chunk_ids. apply elem_of_list_to_set, list_elem_of_fmap.
    exists (N.to_nat id). split; [by rewrite N2Nat.id|].
    apply elem_of_seq. apply Hvalid in Hin. lia. }
  by apply size_list_to_set.
Qed.

(** X19: the view lacks at most as many chunks as ids are listed (the
    number [description] prints as "Chunks pruned"), and exactly that many
    when the listed ids are distinct ids of chunks of the table. *)
Theorem dropped_at_most_listed (op : GetTable) (store : Store)
    (original_ptr : TablePtr) (original : Table) (excluded : list ChunkID) :
  storage_manager store !! _name op = Some original_ptr →
  table_store store !! original_ptr = Some original →
  _excluded_chunks op = Some excluded → excluded ≠ [] →
  ∃ pruned_ptr store' pruned,
    _on_execute op store = (Ok pruned_ptr, store') ∧
    table_store store' !! pruned_ptr = Some pruned ∧
    (chunk_count pruned ≤ chunk_count original)%nat ∧
    (chunk_count original - chunk_count pruned ≤ length excluded)%nat ∧
    (NoDup excluded → (∀ id, id ∈ excluded → id < N.of_nat (chunk_count original)) →
     chunk_count pruned = (chunk_count original - length excluded)%nat).
Proof.
  intros Hreg Htable Hexcl Hne.
  rewrite (on_execute_pruned op store original_ptr original excluded) by done.
  eexists _, _, _. split; [done|]. split; [simpl; apply lookup_insert_eq|].
  unfold chunk_count. cbn [chunks].
  pose proof (retained_chunks_count (list_to_set excluded) (chunks original)) as Hcount.
  pose proof (excluded_valid_size_le excluded (length (chunks original))) as Hle.
  split; [lia|]. split; [lia|].
  intros Hnodup Hvalid. rewrite excluded_valid_size_eq in Hcount by done. lia.
Qed.

Lemma dropped_at_most_listed_witness :
  ∃ pruned_ptr store' pruned,
    _on_execute (set_excluded_chunks [1; 1; 9] (GetTable_new "t")) four_chunk_store
      = (Ok pruned_ptr, store') ∧
    table_store store' !! pruned_ptr = Some pruned ∧
    (chunk_count pruned ≤ chunk_count four_chunk_table)%nat ∧
    (chunk_count four_chunk_table - chunk_count pruned ≤ length [1; 1; 9])%nat ∧
    (NoDup [1; 1; 9] → (∀ id, id ∈ [1; 1; 9] → id < N.of_nat (chunk_count four_chunk_table)) →
     chunk_count pruned = (chunk_count four_chunk_table - length [1; 1; 9])%nat).
Proof.
  apply (dropped_at_most_listed (set_excluded_chunks [1; 1; 9] (GetTable_new "t"))
           four_chunk_store 7%positive four_chunk_table [1; 1; 9]).
  - reflexivity.
  - reflexivity.
  - reflexivity.
  - discriminate.
Defined.

(** ** Properties of the constant mappings *)

(** In an association list whose values are pairwise distinct, a value
    belongs to one key. *)
Lemma NoDup_snd_inj {K V} (l : list (K * V)) a b v :
  NoDup l.*2 → (a, v) ∈ l → (b, v) ∈ l → a = b.
Proof.
  induction l as [|[k w] l IH]; simpl; intros Hnd Ha Hb.
  - inversion Ha.
  - apply NoDup_cons in Hnd as [Hw Hnd].
    apply elem_of_cons in Ha as [Ha | Ha], Hb as [Hb | Hb].
    + congruence.
    + inversion Ha; subst. exfalso. apply Hw.
      apply list_elem_of_fmap. by exists (b, w).
    + inversion Hb; subst. exfalso. apply Hw.
      apply list_elem_of_fmap. by exists (a, w).
    + auto.
Qed.

Lemma list_to_map_inj `{Countable K} {V} (l : list (K * V)) a b v :
  NoDup l.*1 → NoDup l.*2 →
  (list_to_map l : gmap K V) !! a = Some v →
  (list_to_map l : gmap K V) !! b = Some v →
  a = b.
Proof.
  intros H1 H2 Ha Hb.
  apply elem_of_list_to_map in Ha, Hb; try done.
  by eapply NoDup_snd_inj.
Qed.

(** The map of a list of pairs and the map of the swapped pairs are
    inverse to each other when neither keys nor values repeat. *)
Lemma list_to_map_swap `{Countable K} `{Countable V} (l : list (K * V)) k v :
  NoDup l.*1 → NoDup l.*2 →
  (list_to_map l : gmap K V) !! k = Some v ↔
  (list_to_map (prod_swap <$> l) : gmap V K) !! v = Some k.
Proof.
  intros H1 H2.
  rewrite <- !elem_of_list_to_map; try done.
  - rewrite list_elem_of_fmap. split.
    + intros Hin. by exists (k, v).
    + intros [[k' v'] [Heq Hin]]. simpl in Heq. congruence.
  - rewrite <- list_fmap_compose.
    erewrite list_fmap_ext; [exact H2|]. by intros ? [? ?] _.
Qed.

(** The enumerations as their underlying integers, in the order the tables
    list the enumerators. *)
#[export] Instance N_ScanType : ScanType.Enumerators N.
Proof.
  refine {| ScanType.OpEquals := 0; ScanType.OpNotEquals := 1;
            ScanType.OpLessThan := 2; ScanType.OpLessThanEquals := 3;
            ScanType.OpGreaterThan := 4; ScanType.OpGreaterThanEquals := 5;
            ScanType.OpBetween := 6; ScanType.OpLike := 7 |}.
  compute_done.
Defined.

#[export] Instance N_JoinMode : JoinMode.Enumerators N.
Proof.
  refine {| JoinMode.Cross := 0; JoinMode.Inner := 1; JoinMode.Left := 2;
            JoinMode.Natural := 3; JoinMode.Outer := 4; JoinMode.Right := 5;
            JoinMode.Self := 6 |}.
  compute_done.
Defined.

#[export] Instance N_ExpressionType : ExpressionType.Enumerators N.
Proof.
  refine {| ExpressionType.Literal := 0; ExpressionType.Star := 1;
            ExpressionType.Parameter_ := 2; ExpressionType.ColumnReference := 3;
            ExpressionType.FunctionReference := 4; ExpressionType.Operator := 5;
            ExpressionType.Select := 6; ExpressionType.Plus := 7;
            ExpressionType.Minus := 8; ExpressionType.Asterisk := 9;
            ExpressionType.Slash := 10; ExpressionType.Percentage := 11;
            ExpressionType.Caret := 12; ExpressionType.Equals := 13;
            ExpressionType.NotEquals := 14; ExpressionType.Less := 15;
            ExpressionType.LessEquals := 16; ExpressionType.Greater := 17;
            ExpressionType.GreaterEquals := 18; ExpressionType.Like := 19;
            ExpressionType.NotLike := 20; ExpressionType.And := 21;
            ExpressionType.Or := 22; ExpressionType.In := 23;
            ExpressionType.Not := 24; ExpressionType.IsNull := 25;
            ExpressionType.Exists := 26; ExpressionType.Between := 27;
            ExpressionType.Hint := 28; ExpressionType.Case := 29 |}.
  compute_done.
Defined.

#[export] Instance N_AggregateFunction : AggregateFunction.Enumerators N.
Proof.
  refine {| AggregateFunction.Min := 0; AggregateFunction.Max := 1;
            AggregateFunction.Sum := 2; AggregateFunction.Avg := 3;
            AggregateFunction.Count := 4 |}.
  compute_done.
Defined.

(** X20: [string_to_scan_type] and [scan_type_to_string] are inverse to each
    other: a string is mapped to a scan type exactly when that scan type is
    mapped to the string, whatever the enumeration [ScanType] is beyond its
    eight distinct enumerators. *)
Theorem scan_type_round_trip `{ScanType.Enumerators t} (s : string) (scan_type : t) :
  string_to_scan_type !! s = Some scan_type ↔
  scan_type_to_string !! scan_type = Some s.
Proof.
  unfold string_to_scan_type, scan_type_to_string.
  rewrite list_to_map_swap; [reflexivity| |].
  - compute_done.
  - exact ScanType.distinct.
Qed.

Lemma scan_type_round_trip_witness :
  string_to_scan_type !! "<=" = Some 3 ↔ scan_type_to_string !! 3 = Some "<=".
Proof.
  exact (scan_type_round_trip (t := N) "<=" 3).
Defined.

(** X21: [expression_type_to_string] gives no name to two expression types:
    expression types that are mapped to the same string are the same. *)
Theorem expression_type_names_distinct `{ExpressionType.Enumerators t}
    (a b : t) (name : string) :
  expression_type_to_string !! a = Some name →
  expression_type_to_string !! b = Some name →
  a = b.
Proof.
  unfold expression_type_to_string. apply list_to_map_inj.
  - exact ExpressionType.distinct.
  - compute_done.
Qed.

Lemma expression_type_names_distinct_witness :
  expression_type_to_string !! 20 = Some "NotLike" ∧
  expression_type_to_string !! (4 * 5) = Some "NotLike" ∧
  20 = 4 * 5.
Proof.
  assert (expression_type_to_string !! 20 = Some "NotLike") as Ha by reflexivity.
  assert (expression_type_to_string !! (4 * 5) = Some "NotLike") as Hb by reflexivity.
  split; [exact Ha|]. split; [exact Hb|].
  exact (expression_type_names_distinct (t := N) 20 (4 * 5) "NotLike" Ha Hb).
Defined.

(** X22: [join_mode_to_string] gives no name to two join modes. *)
Theorem join_mode_names_distinct `{JoinMode.Enumerators t} (a b : t) (name : string) :
  join_mode_to_string !! a = Some name →
  join_mode_to_string !! b = Some name →
  a = b.
Proof.
  unfold join_mode_to_string. apply list_to_map_inj.
  - exact JoinMode.distinct.
  - compute_done.
Qed.

Lemma join_mode_names_distinct_witness :
  join_mode_to_string !! 4 = Some "Outer" ∧
  join_mode_to_string !! (2 + 2) = Some "Outer" ∧
  4 = 2 + 2.
Proof.
  assert (join_mode_to_string !! 4 = Some "Outer") as Ha by reflexivity.
  assert (join_mode_to_string !! (2 + 2) = Some "Outer") as Hb by reflexivity.
  split; [exact Ha|]. split; [exact Hb|].
  exact (join_mode_names_distinct (t := N) 4 (2 + 2) "Outer" Ha Hb).
Defined.

(** X23: [string_to_aggregate_function] has one spelling per aggregate
    function: strings that are mapped to the same function are equal, so a
    name written in another case is not mapped to the function of the listed
    spelling. *)
Theorem aggregate_function_one_spelling `{AggregateFunction.Enumerators t}
    (s1 s2 : string) (function : t) :
  string_to_aggregate_function !! s1 = Some function →
  string_to_aggregate_function !! s2 = Some function →
  s1 = s2.
Proof.
  unfold string_to_aggregate_function. apply list_to_map_inj.
  - compute_done.
  - exact AggregateFunction.distinct.
Qed.

Lemma aggregate_function_one_spelling_witness :
  string_to_aggregate_function !! "SUM" = Some 2 ∧
  string_to_aggregate_function !! ("SU" +:+ "M") = Some 2 ∧
  "SUM" = "SU" +:+ "M".
Proof.
  assert (string_to_aggregate_function !! "SUM" = Some 2) as Ha by reflexivity.
  assert (string_to_aggregate_function !! ("SU" +:+ "M") = Some 2) as Hb by reflexivity.
  split; [exact Ha|]. split; [exact Hb|].
  exact (aggregate_function_one_spelling (t := N) "SUM" ("SU" +:+ "M") 2 Ha Hb).
Defined.
